(** * gotestmd: the interactive shell session and the suite script generator

    A shallow embedding of two packages of the repository:

    - package [shell]: one long-lived [bash] process driven through its
      standard streams.  Two listener goroutines turn the byte streams into
      messages on two unbuffered channels, and [Run] waits for the first
      message.  The goroutines are modelled by an explicit scheduler: a
      state ([Bash]), one transition per atomic action ([step]) and a
      schedule (a list of events) that fixes the interleaving.
    - package [generator]: the [Suite] tree and the functions that
      linearise a suite's ancestors into setup and cleanup command
      sequences and render them as a bash script or as Go test code.

    Go strings are byte strings: they are modelled by [string], whose
    characters are the 256 bytes. *)

From Stdlib Require Import String Ascii List Bool Arith PeanoNat Lia.
Import ListNotations.
Open Scope string_scope.
Open Scope nat_scope.
Open Scope list_scope.

(** String concatenation ([+] on Go strings); [++] stays list append. *)
Infix "+++" := String.append (right associativity, at level 60).

(** ** The functions of Go's [strings] package that the sources call *)
Module GoStrings.

Definition byte_of (n : nat) : ascii := ascii_of_nat n.

Definition nl : string := String (byte_of 10) EmptyString.
Definition tab : string := String (byte_of 9) EmptyString.
Definition dq : string := String (byte_of 34) EmptyString.
Definition bslash : string := String (byte_of 92) EmptyString.

(** [len(s)] *)
Definition len (s : string) : nat := String.length s.

(** [s[:n]] for [n <= len(s)]. *)
Definition slice_to (s : string) (n : nat) : string := substring 0 n s.

(** [s[n:]] for [n <= len(s)]. *)
Definition slice_from (s : string) (n : nat) : string :=
  substring n (len s - n) s.

(** [strings.HasSuffix]:
    [len(s) >= len(suffix) && s[len(s)-len(suffix):] == suffix]. *)
Definition HasSuffix (s suffix : string) : bool :=
  (len suffix <=? len s) &&
  String.eqb (slice_from s (len s - len suffix)) suffix.

(** The six ASCII bytes that Go's [asciiSpace] table marks:
    tab, newline, vertical tab, form feed, carriage return, space. *)
Definition asciiSpace (c : ascii) : bool :=
  let n := nat_of_ascii c in
  (n =? 9) || (n =? 10) || (n =? 11) || (n =? 12) || (n =? 13) || (n =? 32).

(** The third byte of the three-byte UTF-8 encodings [E2 80 xx] that are
    white space for [unicode.IsSpace]: U+2000..U+200A, U+2028, U+2029 and
    U+202F. *)
Definition spaceE280 (n : nat) : bool :=
  ((128 <=? n) && (n <=? 138)) || (n =? 168) || (n =? 169) || (n =? 175).

(** [strings.TrimLeftFunc(s, unicode.IsSpace)]: drop leading white-space
    runes.  A rune is white space when it is one of the ASCII spaces or
    one of U+0085, U+00A0, U+1680, U+2000..U+200A, U+2028, U+2029, U+202F,
    U+205F, U+3000; Go decodes only the canonical UTF-8 encoding of a rune
    and reads every other byte sequence as the (non-space) error rune. *)
Fixpoint trimLeft (s : string) : string :=
  match s with
  | EmptyString => s
  | String c s1 =>
      if asciiSpace c then trimLeft s1
      else
        match s1 with
        | String c1 s2 =>
            let n := nat_of_ascii c in
            let n1 := nat_of_ascii c1 in
            if (n =? 194) && ((n1 =? 133) || (n1 =? 160)) then trimLeft s2
            else
              match s2 with
              | String c2 s3 =>
                  let n2 := nat_of_ascii c2 in
                  if ((n =? 225) && (n1 =? 154) && (n2 =? 128))
                     || ((n =? 226) && (n1 =? 128) && spaceE280 n2)
                     || ((n =? 226) && (n1 =? 129) && (n2 =? 159))
                     || ((n =? 227) && (n1 =? 128) && (n2 =? 128))
                  then trimLeft s3
                  else s
              | EmptyString => s
              end
        | EmptyString => s
        end
  end.

(** The same scan over the reversed string: the bytes of an encoding come
    last byte first. *)
Fixpoint trimLeftRev (s : string) : string :=
  match s with
  | EmptyString => s
  | String c s1 =>
      if asciiSpace c then trimLeftRev s1
      else
        match s1 with
        | String c1 s2 =>
            let n := nat_of_ascii c in
            let n1 := nat_of_ascii c1 in
            if (n1 =? 194) && ((n =? 133) || (n =? 160)) then trimLeftRev s2
            else
              match s2 with
              | String c2 s3 =>
                  let n2 := nat_of_ascii c2 in
                  if ((n2 =? 225) && (n1 =? 154) && (n =? 128))
                     || ((n2 =? 226) && (n1 =? 128) && spaceE280 n)
                     || ((n2 =? 226) && (n1 =? 129) && (n =? 159))
                     || ((n2 =? 227) && (n1 =? 128) && (n =? 128))
                  then trimLeftRev s3
                  else s
              | EmptyString => s
              end
        | EmptyString => s
        end
  end.

Fixpoint rev_append (s acc : string) : string :=
  match s with
  | EmptyString => acc
  | String c s1 => rev_append s1 (String c acc)
  end.

Definition rev (s : string) : string := rev_append s EmptyString.

(** [strings.TrimRightFunc(s, unicode.IsSpace)] *)
Definition trimRight (s : string) : string := rev (trimLeftRev (rev s)).

(** [strings.TrimSpace]: the ASCII fast path of the library and its
    Unicode fallback compute the same string, leading and trailing white
    space removed. *)
Definition TrimSpace (s : string) : string := trimRight (trimLeft s).

(** [strings.ReplaceAll(s, old, new)] for a one-byte [old]. *)
Fixpoint ReplaceAll (s : string) (old : ascii) (new : string) : string :=
  match s with
  | EmptyString => EmptyString
  | String c s1 =>
      if Ascii.eqb c old then new +++ ReplaceAll s1 old new
      else String c (ReplaceAll s1 old new)
  end.

(** [strings.Split(s, sep)] for a one-byte [sep]: the pieces between the
    separators, always at least one piece. *)
Fixpoint Split_from (s : string) (sep : ascii) (cur : string) : list string :=
  match s with
  | EmptyString => [rev cur]
  | String c s1 =>
      if Ascii.eqb c sep then rev cur :: Split_from s1 sep EmptyString
      else Split_from s1 sep (String c cur)
  end.

Definition Split (s : string) (sep : ascii) : list string :=
  Split_from s sep EmptyString.

(** A [strings.Builder] is the text written so far. *)
Definition Builder : Type := string.
Definition WriteString (sb : Builder) (s : string) : Builder := sb +++ s.

(** [strings.Repeat] of one byte, used to build test inputs. *)
Fixpoint Repeat (c : ascii) (n : nat) : string :=
  match n with
  | O => EmptyString
  | S k => String c (Repeat c k)
  end.

(** *** Facts about slices and suffixes *)

Lemma len_append (a b : string) : len (a +++ b) = len a + len b.
Proof. unfold len. induction a as [|c a IH]; simpl; [reflexivity | now rewrite IH]. Qed.

Lemma append_nil_r (a : string) : a +++ "" = a.
Proof. induction a as [|c a IH]; simpl; [reflexivity | now rewrite IH]. Qed.

Lemma append_assoc (a b c : string) : (a +++ b) +++ c = a +++ b +++ c.
Proof. induction a as [|x a IH]; simpl; [reflexivity | now rewrite IH]. Qed.

Lemma substring_0_0 (s : string) : substring 0 0 s = "".
Proof. destruct s; reflexivity. Qed.

Lemma slice_to_0 (s : string) : slice_to s 0 = "".
Proof. apply substring_0_0. Qed.

Lemma substring_all (s : string) : substring 0 (len s) s = s.
Proof. unfold len. induction s as [|c s IH]; simpl; [reflexivity | now rewrite IH]. Qed.

Lemma slice_to_append (a b : string) : slice_to (a +++ b) (len a) = a.
Proof.
  unfold slice_to, len. induction a as [|c a IH]; simpl.
  - apply substring_0_0.
  - now rewrite IH.
Qed.

Lemma substring_skip (a b : string) (m : nat) :
  substring (len a) m (a +++ b) = substring 0 m b.
Proof. unfold len. induction a as [|c a IH]; simpl; [reflexivity | exact IH]. Qed.

Lemma slice_from_append (a b : string) : slice_from (a +++ b) (len a) = b.
Proof.
  unfold slice_from. rewrite len_append, substring_skip.
  replace (len a + len b - len a) with (len b) by lia. apply substring_all.
Qed.

Lemma slice_split (s : string) (n : nat) :
  n <= len s -> s = slice_to s n +++ slice_from s n.
Proof.
  unfold slice_to, slice_from, len. revert n.
  induction s as [|c s IH]; intros n Hn; simpl in *.
  - destruct n; reflexivity.
  - destruct n as [|n]; simpl.
    + pose proof (substring_all s) as E. unfold len in E. now rewrite E.
    + f_equal. apply IH. lia.
Qed.

Lemma HasSuffix_true (s suffix : string) :
  HasSuffix s suffix = true <-> exists p, s = p +++ suffix.
Proof.
  unfold HasSuffix. split.
  - intros H. apply andb_true_iff in H as [Hl He].
    apply Nat.leb_le in Hl. apply String.eqb_eq in He.
    exists (slice_to s (len s - len suffix)).
    rewrite <- He at 2. apply slice_split. lia.
  - intros [p ->]. rewrite len_append. apply andb_true_iff. split.
    + apply Nat.leb_le. lia.
    + replace (len p + len suffix - len suffix) with (len p) by lia.
      rewrite slice_from_append. apply String.eqb_refl.
Qed.

Lemma list_ascii_append (a b : string) :
  list_ascii_of_string (a +++ b) = list_ascii_of_string a ++ list_ascii_of_string b.
Proof. induction a as [|c a IH]; simpl; [reflexivity | now rewrite IH]. Qed.

Lemma HasSuffix_FAILED_not_OK (s : string) :
  HasSuffix s "FAILED" = true -> HasSuffix s "OK" = false.
Proof.
  intros H. apply HasSuffix_true in H as [p ->].
  destruct (HasSuffix (p +++ "FAILED") "OK") eqn:E; [|reflexivity].
  apply HasSuffix_true in E as [q E].
  apply (f_equal list_ascii_of_string) in E.
  rewrite !list_ascii_append in E.
  apply (f_equal (@List.rev ascii)) in E.
  rewrite !rev_app_distr in E. simpl in E. discriminate E.
Qed.

End GoStrings.

(** ** Package [shell]: the persistent bash session *)
Module Shell.
Import GoStrings.

(** [bufferSize = 1 << 16] *)
Definition bufferSize : nat := Nat.shiftl 1 16.
Arguments bufferSize : simpl never.

(** The status probe written after every command. *)
Definition checkStatus : string :=
  "if [ $? -eq 0 ]; then" +++ nl +++
  tab +++ "echo OK" +++ nl +++
  "else" +++ nl +++
  tab +++ "echo FAILED" +++ nl +++
  "fi".

(** The [error] values the package produces or passes on. *)
Inductive error : Type :=
| errors_New (text : string)   (* errors.New(text) *)
| context_Canceled             (* ctx.Err() once cancel() was called *)
| os_ErrClosed                 (* a write on a pipe that was closed *)
| syscall_EPIPE.               (* a write on a pipe nobody reads any more *)

(** [err.Error()] *)
Definition Error (e : error) : string :=
  match e with
  | errors_New text => text
  | context_Canceled => "context canceled"
  | os_ErrClosed => "file already closed"
  | syscall_EPIPE => "write |1: broken pipe"
  end.

(** A function either returns, panics, or (for a transition of the
    scheduler) is not enabled in the current state. *)
Inductive outcome (A : Type) : Type :=
| Ret (a : A)
| Panic (msg : string)
| NotEnabled.
Arguments Ret {A} a.
Arguments Panic {A} msg.
Arguments NotEnabled {A}.

Definition bind {A B : Type} (m : outcome A) (k : A -> outcome B) : outcome B :=
  match m with
  | Ret a => k a
  | Panic msg => Panic msg
  | NotEnabled => NotEnabled
  end.

Notation "x <- m ;; k" := (bind m (fun x => k))
  (at level 61, m at next level, right associativity).

(** What [init] asks of the operating system: the result of
    [exec.LookPath], [os.Environ()], and the errors of the three pipe
    constructors and of [cmd.Start] ([None] is a nil error). *)
Record Host : Type := {
  LookPath_bash : string + string;
  os_Environ : list string;
  StderrPipe_err : option string;
  StdinPipe_err : option string;
  StdoutPipe_err : option string;
  Start_err : option string
}.

Inductive pipe : Type := Stderr | Stdin | Stdout.

Definition pipe_eqb (p q : pipe) : bool :=
  match p, q with
  | Stderr, Stderr | Stdin, Stdin | Stdout, Stdout => true
  | _, _ => false
  end.

(** [exec.Cmd] as [init] fills it. *)
Record Cmd : Type := { cmd_Dir : string; cmd_Env : list string; cmd_Path : string }.

(** Where a listener goroutine stands. *)
Inductive pc : Type :=
| NotStarted   (* before the [go] statement *)
| AtLoop       (* about to evaluate [b.ctx.Err() == nil] *)
| InRead       (* blocked in [Read] *)
| SendOut      (* blocked in [b.outCh <- output] *)
| SendErr      (* blocked in [b.errCh <- ...] *)
| Exited.

(** The locals of [stdoutHandler]. *)
Record stdoutState : Type := {
  so_pc : pc;
  output : string;
  buffer : string;
  cur : nat
}.

(** The locals of [stderrHandler]; [se_msg] is the error being sent. *)
Record stderrState : Type := {
  se_pc : pc;
  se_buffer : string;
  se_msg : error
}.

(** The goroutine that calls [Run]. *)
Inductive callerState : Type :=
| Idle
| InSelect                                      (* blocked in Run's select *)
| Returned (output : string) (err : option error).

(** [Bash].  The two channels are unbuffered, so all they hold is a sender
    blocked in a send: the [SendOut] and [SendErr] states of the
    listeners.  [canceled] is [b.ctx.Err() != nil]; [stdin] lists the
    writes that reached the process, oldest first; [closed] lists the
    resources that were closed; [exited] tells that the process of
    [b.cmd] has exited, so that nobody reads its standard input any
    more. *)
Record Bash : Type := {
  Dir : string;
  Env : list string;
  once : bool;
  canceled : bool;
  resources : list pipe;
  closed : list pipe;
  stdin : list string;
  cmd : option Cmd;
  waited : bool;
  exited : bool;
  stdout_l : stdoutState;
  stderr_l : stderrState;
  caller : callerState
}.

(** The zero value [&Bash{Dir: dir, Env: env}]. *)
Definition new_Bash (dir : string) (env : list string) : Bash :=
  {| Dir := dir; Env := env; once := false; canceled := false;
     resources := []; closed := []; stdin := []; cmd := None; waited := false;
     exited := false;
     stdout_l := {| so_pc := NotStarted; output := ""; buffer := ""; cur := 0 |};
     stderr_l := {| se_pc := NotStarted; se_buffer := ""; se_msg := errors_New "" |};
     caller := Idle |}.

Definition is_closed (b : Bash) (p : pipe) : bool := existsb (pipe_eqb p) (closed b).

Definition set_caller (b : Bash) (c : callerState) : Bash :=
  {| Dir := Dir b; Env := Env b; once := once b; canceled := canceled b;
     resources := resources b; closed := closed b; stdin := stdin b;
     cmd := cmd b; waited := waited b; exited := exited b;
     stdout_l := stdout_l b; stderr_l := stderr_l b; caller := c |}.

Definition set_stdout (b : Bash) (l : stdoutState) : Bash :=
  {| Dir := Dir b; Env := Env b; once := once b; canceled := canceled b;
     resources := resources b; closed := closed b; stdin := stdin b;
     cmd := cmd b; waited := waited b; exited := exited b;
     stdout_l := l; stderr_l := stderr_l b; caller := caller b |}.

Definition set_stderr (b : Bash) (l : stderrState) : Bash :=
  {| Dir := Dir b; Env := Env b; once := once b; canceled := canceled b;
     resources := resources b; closed := closed b; stdin := stdin b;
     cmd := cmd b; waited := waited b; exited := exited b;
     stdout_l := stdout_l b; stderr_l := l; caller := caller b |}.

(** [make([]byte, bufferSize)] *)
Definition make_buffer : string := Repeat zero bufferSize.
Arguments make_buffer : simpl never.

(** [init]: a fresh context, the command with its three pipes, the
    process started and the two listeners launched.  Every failure
    panics. *)
Definition init (h : Host) (b : Bash) : outcome Bash :=
  match LookPath_bash h with
  | inr e => Panic e
  | inl p =>
      let env := if length (Env b) =? 0 then os_Environ h else Env b in
      let c := {| cmd_Dir := Dir b; cmd_Env := env; cmd_Path := p |} in
      match StderrPipe_err h with
      | Some e => Panic e
      | None =>
          let res1 := resources b ++ [Stderr] in
          match StdinPipe_err h with
          | Some e => Panic e
          | None =>
              let res2 := res1 ++ [Stdin] in
              match StdoutPipe_err h with
              | Some e => Panic e
              | None =>
                  let res3 := res2 ++ [Stdout] in
                  match Start_err h with
                  | Some e => Panic e
                  | None =>
                      Ret {| Dir := Dir b; Env := env; once := once b;
                             canceled := false;
                             resources := res3; closed := closed b;
                             stdin := stdin b; cmd := Some c;
                             waited := waited b; exited := false;
                             stdout_l := {| so_pc := AtLoop; output := "";
                                            buffer := make_buffer; cur := 0 |};
                             stderr_l := {| se_pc := AtLoop;
                                            se_buffer := make_buffer;
                                            se_msg := errors_New "" |};
                             caller := caller b |}
                  end
              end
          end
      end
  end.

(** [b.once.Do(b.init)] *)
Definition once_Do_init (h : Host) (b : Bash) : outcome Bash :=
  if once b then Ret b
  else
    b1 <- init h b ;;
    Ret {| Dir := Dir b1; Env := Env b1; once := true; canceled := canceled b1;
           resources := resources b1; closed := closed b1; stdin := stdin b1;
           cmd := cmd b1; waited := waited b1; exited := exited b1;
           stdout_l := stdout_l b1; stderr_l := stderr_l b1;
           caller := caller b1 |}.

(** [b.stdin.Write(p)]: the bytes reach the process unless the pipe was
    closed or the process has exited. *)
Definition stdin_Write (b : Bash) (p : string) : Bash * option error :=
  if is_closed b Stdin then (b, Some os_ErrClosed)
  else if exited b then (b, Some syscall_EPIPE)
  else
    ({| Dir := Dir b; Env := Env b; once := once b; canceled := canceled b;
        resources := resources b; closed := closed b;
        stdin := stdin b ++ [p];
        cmd := cmd b; waited := waited b; exited := exited b;
        stdout_l := stdout_l b; stderr_l := stderr_l b; caller := caller b |},
     None).

(** [Close].  [b.cmd.Wait()] returns when the process has exited. *)
Definition Close (h : Host) (b : Bash) : outcome Bash :=
  b1 <- once_Do_init h b ;;
  let b2 :=
    {| Dir := Dir b1; Env := Env b1; once := once b1; canceled := true;
       resources := resources b1; closed := closed b1; stdin := stdin b1;
       cmd := cmd b1; waited := waited b1; exited := exited b1;
       stdout_l := stdout_l b1; stderr_l := stderr_l b1;
       caller := caller b1 |} in
  let b3 := fst (stdin_Write b2 ("exit 0" +++ nl)) in
  Ret {| Dir := Dir b3; Env := Env b3; once := once b3; canceled := canceled b3;
         resources := resources b3;
         closed := closed b3 ++ resources b3;
         stdin := stdin b3; cmd := cmd b3; waited := true; exited := true;
         stdout_l := stdout_l b3; stderr_l := stderr_l b3;
         caller := caller b3 |}.

(** [Run] up to its [select]: lines of the function before the wait. *)
Definition Run_enter (h : Host) (b : Bash) (s : string) : outcome Bash :=
  b1 <- once_Do_init h b ;;
  if canceled b1 then Ret (set_caller b1 (Returned "" (Some context_Canceled)))
  else
    match stdin_Write b1 (s +++ nl) with
    | (b2, Some e) => Ret (set_caller b2 (Returned "" (Some e)))
    | (b2, None) =>
        match stdin_Write b2 (checkStatus +++ nl) with
        | (b3, Some e) => Ret (set_caller b3 (Returned "" (Some e)))
        | (b3, None) => Ret (set_caller b3 InSelect)
        end
    end.

(** The process exits. *)
Definition set_exited (b : Bash) : Bash :=
  {| Dir := Dir b; Env := Env b; once := once b; canceled := canceled b;
     resources := resources b; closed := closed b; stdin := stdin b;
     cmd := cmd b; waited := waited b; exited := true;
     stdout_l := stdout_l b; stderr_l := stderr_l b; caller := caller b |}.

(** [Run] up to its [select], when the process takes the command and
    exits before the probe is written (as it may on [exit 1]). *)
Definition Run_enter_exiting (h : Host) (b : Bash) (s : string) : outcome Bash :=
  b1 <- once_Do_init h b ;;
  if canceled b1 then Ret (set_caller b1 (Returned "" (Some context_Canceled)))
  else
    match stdin_Write b1 (s +++ nl) with
    | (b2, Some e) => Ret (set_caller b2 (Returned "" (Some e)))
    | (b2, None) =>
        match stdin_Write (set_exited b2) (checkStatus +++ nl) with
        | (b3, Some e) => Ret (set_caller b3 (Returned "" (Some e)))
        | (b3, None) => Ret (set_caller b3 InSelect)
        end
    end.

(** [Read(buffer[cur:])] storing [chunk]: the bytes before [cur] and after
    the chunk stay. *)
Definition write_at (buf : string) (at_ : nat) (chunk : string) : string :=
  slice_to buf at_ +++ chunk +++ slice_from buf (at_ + len chunk).

(** [r := strings.TrimSpace(string(buffer[:cur+n]))] after a read of
    [chunk]. *)
Definition stdout_r (l : stdoutState) (chunk : string) : string :=
  TrimSpace (slice_to (write_at (buffer l) (cur l) chunk) (cur l + len chunk)).

(** One iteration of the loop of [stdoutHandler] from the return of [Read]
    to the next blocking point. *)
Definition stdout_on_read (l : stdoutState) (chunk : string) : stdoutState :=
  let n := len chunk in
  let buf := write_at (buffer l) (cur l) chunk in
  let r := stdout_r l chunk in
  if HasSuffix r "OK" then
    {| so_pc := SendOut;
       output := if 2 <? len r then slice_to r (len r - len (nl +++ "OK"))
                 else output l;
       buffer := buf; cur := cur l |}
  else if HasSuffix r "FAILED" then
    {| so_pc := SendErr; output := output l; buffer := buf; cur := cur l |}
  else
    let cur1 := cur l + n in
    {| so_pc := AtLoop; output := output l; buffer := buf;
       cur := if cur1 =? bufferSize then 0 else cur1 |}.

(** After the send of [stdoutHandler] was received. *)
Definition stdout_after_send (l : stdoutState) : stdoutState :=
  match so_pc l with
  | SendOut => {| so_pc := AtLoop; output := ""; buffer := buffer l; cur := 0 |}
  | _ => {| so_pc := AtLoop; output := output l; buffer := buffer l; cur := 0 |}
  end.

(** One iteration of [stderrHandler]: the bytes read become the error. *)
Definition stderr_on_read (l : stderrState) (chunk : string) : stderrState :=
  let buf := write_at (se_buffer l) 0 chunk in
  {| se_pc := SendErr; se_buffer := buf;
     se_msg := errors_New (slice_to buf (len chunk)) |}.

(** The atomic actions of the two listeners and of Run's [select], and
    the exit of the process. *)
Inductive event : Type :=
| StdoutLoop                    (* stdoutHandler tests its loop condition *)
| StdoutRead (chunk : string)   (* stdout.Read returns len(chunk), nil *)
| StdoutReadErr                 (* stdout.Read returns an error *)
| StdoutSend                    (* select receives what stdoutHandler sends *)
| StderrLoop
| StderrRead (chunk : string)
| StderrReadErr
| StderrSend                    (* select receives from errCh the error of stderrHandler *)
| CtxDone                       (* select receives from b.ctx.Done() *)
| ProcessExit.                  (* the process started by init exits *)

Definition set_so_pc (l : stdoutState) (p : pc) : stdoutState :=
  {| so_pc := p; output := output l; buffer := buffer l; cur := cur l |}.

Definition set_se_pc (l : stderrState) (p : pc) : stderrState :=
  {| se_pc := p; se_buffer := se_buffer l; se_msg := se_msg l |}.

(** One transition.  A read returns at most as many bytes as the slice it
    was given has room for, and fails on a closed pipe. *)
Definition step (b : Bash) (e : event) : outcome Bash :=
  let so := stdout_l b in
  let se := stderr_l b in
  match e with
  | StdoutLoop =>
      match so_pc so with
      | AtLoop => Ret (set_stdout b (set_so_pc so (if canceled b then Exited else InRead)))
      | _ => NotEnabled
      end
  | StdoutRead chunk =>
      match so_pc so with
      | InRead =>
          if negb (is_closed b Stdout) && (len chunk <=? bufferSize - cur so)
          then Ret (set_stdout b (stdout_on_read so chunk))
          else NotEnabled
      | _ => NotEnabled
      end
  | StdoutReadErr =>
      match so_pc so with
      | InRead => Ret (set_stdout b (set_so_pc so Exited))
      | _ => NotEnabled
      end
  | StdoutSend =>
      match caller b, so_pc so with
      | InSelect, SendOut =>
          Ret (set_caller (set_stdout b (stdout_after_send so))
                          (Returned (output so) None))
      | InSelect, SendErr =>
          Ret (set_caller (set_stdout b (stdout_after_send so))
                          (Returned "" (Some (errors_New "command has failed"))))
      | _, _ => NotEnabled
      end
  | StderrLoop =>
      match se_pc se with
      | AtLoop => Ret (set_stderr b (set_se_pc se (if canceled b then Exited else InRead)))
      | _ => NotEnabled
      end
  | StderrRead chunk =>
      match se_pc se with
      | InRead =>
          if negb (is_closed b Stderr) && (len chunk <=? bufferSize)
          then Ret (set_stderr b (stderr_on_read se chunk))
          else NotEnabled
      | _ => NotEnabled
      end
  | StderrReadErr =>
      match se_pc se with
      | InRead => Ret (set_stderr b (set_se_pc se Exited))
      | _ => NotEnabled
      end
  | StderrSend =>
      match caller b, se_pc se with
      | InSelect, SendErr =>
          Ret (set_caller (set_stderr b (set_se_pc se AtLoop))
                          (Returned "" (Some (se_msg se))))
      | _, _ => NotEnabled
      end
  | CtxDone =>
      match caller b with
      | InSelect =>
          if canceled b then Ret (set_caller b (Returned "" (Some context_Canceled)))
          else NotEnabled
      | _ => NotEnabled
      end
  | ProcessExit =>
      if once b && negb (exited b) then Ret (set_exited b) else NotEnabled
  end.

(** What may happen to a session: a call of [Run] (by a caller that has no
    call pending), a call of [Close], a transition, or a call of [Run]
    during which the process exits between the two writes. *)
Inductive action : Type :=
| Call_Run (s : string)
| Call_Close
| Ev (e : event)
| Call_Run_exiting (s : string).

Definition perform (h : Host) (b : Bash) (a : action) : outcome Bash :=
  match a with
  | Call_Run s =>
      match caller b with
      | InSelect => NotEnabled
      | _ => Run_enter h b s
      end
  | Call_Close => Close h b
  | Ev e => step b e
  | Call_Run_exiting s =>
      match caller b with
      | InSelect => NotEnabled
      | _ => Run_enter_exiting h b s
      end
  end.

Fixpoint exec (h : Host) (b : Bash) (acts : list action) : outcome Bash :=
  match acts with
  | [] => Ret b
  | a :: rest => b1 <- perform h b a ;; exec h b1 rest
  end.

(** [Run(s)] under the schedule [sched] of the listeners: what the call
    returns, with the session it leaves.  [NotEnabled] when the schedule
    ends with the call still blocked. *)
Definition Run (h : Host) (b : Bash) (s : string) (sched : list event)
  : outcome (Bash * (string * option error)) :=
  b1 <- exec h b (Call_Run s :: map Ev sched) ;;
  match caller b1 with
  | Returned o e => Ret (b1, (o, e))
  | _ => NotEnabled
  end.

(** A host on which initialisation succeeds. *)
Definition sample_host : Host :=
  {| LookPath_bash := inl "/bin/bash"; os_Environ := ["PATH=/bin"];
     StderrPipe_err := None; StdinPipe_err := None; StdoutPipe_err := None;
     Start_err := None |}.

(** The transitions alone, without the calls. *)
Fixpoint steps (b : Bash) (sched : list event) : outcome Bash :=
  match sched with
  | [] => Ret b
  | e :: rest => b1 <- step b e ;; steps b1 rest
  end.

(** What a call returned. *)
Definition returned (r : outcome (Bash * (string * option error)))
  : option (string * option error) :=
  match r with
  | Ret (_, x) => Some x
  | _ => None
  end.

Definition is_Ret {A : Type} (r : outcome A) : bool :=
  match r with
  | Ret _ => true
  | _ => false
  end.

(** The session an outcome holds (the zero session when it holds none). *)
Definition session (r : outcome Bash) : Bash :=
  match r with
  | Ret b => b
  | _ => new_Bash "" []
  end.

(** The states from which the pending call can only return an error:
    [stdoutHandler] is blocked sending "command has failed", or the call
    already returned one. *)
Definition failing (b : Bash) : Prop :=
  (caller b = InSelect /\ so_pc (stdout_l b) = SendErr) \/
  (exists e, caller b = Returned "" (Some e)).

(** Outside its send on [outCh], [stdoutHandler] holds the empty
    [output]. *)
Definition output_reset (b : Bash) : Prop :=
  so_pc (stdout_l b) <> SendOut -> output (stdout_l b) = "".

(** What [Close] establishes for good. *)
Definition closed_inv (b : Bash) : Prop := once b = true /\ canceled b = true.

(** *** Sample sessions *)

(** A session whose caller is blocked in the select of [Run cmd] and whose
    listeners are both blocked in [Read]. *)
Definition pending_session (cmd : string) : Bash :=
  session (exec sample_host (new_Bash "/w" [])
             [Call_Run cmd; Ev StdoutLoop; Ev StderrLoop]).

Definition stderr_sample : string := "ls: cannot access" +++ nl.

Definition stderr_sample_read : Bash :=
  session (step (pending_session "ls /x") (StderrRead stderr_sample)).

Definition stderr_sample_later : Bash :=
  session (steps stderr_sample_read [StdoutRead ("OK" +++ nl)]).

Definition ok_sample_read : Bash :=
  session (step (pending_session "echo hello")
             (StdoutRead ("hello" +++ nl +++ "OK" +++ nl))).

Definition ok_sample_later : Bash :=
  session (steps ok_sample_read [StderrReadErr]).

Definition failed_sample_read : Bash :=
  session (step (pending_session "false") (StdoutRead ("FAILED" +++ nl))).

Definition failed_sample_later : Bash :=
  session (steps failed_sample_read [StderrReadErr]).

(** The bytes a schedule delivers on standard output, and on standard
    error. *)
Fixpoint stdout_of (sched : list event) : string :=
  match sched with
  | [] => ""
  | StdoutRead chunk :: rest => chunk +++ stdout_of rest
  | _ :: rest => stdout_of rest
  end.

Fixpoint stderr_of (sched : list event) : string :=
  match sched with
  | [] => ""
  | StderrRead chunk :: rest => chunk +++ stderr_of rest
  | _ :: rest => stderr_of rest
  end.

(** The command prints OK itself and fails: the listener reads the
    command's line, and later the FAILED of the probe. *)
Definition own_OK_sched : list event :=
  [StdoutLoop; StderrLoop; StdoutRead ("OK" +++ nl); StdoutSend;
   StdoutLoop; StdoutRead ("FAILED" +++ nl)].

(** A chunk that fills the whole buffer in one read. *)
Definition overflow_chunk : string := Repeat "a"%char bufferSize.

Definition closed_sample : Bash :=
  session (Close sample_host (pending_session "sleep 1")).

Definition closed_sample_later : Bash :=
  session (exec sample_host closed_sample [Ev CtxDone; Call_Run "echo hi"; Call_Close]).

(** *** The scheduler *)

Ltac step_cases H :=
  unfold step in H;
  repeat match type of H with
  | context [match ?x with _ => _ end] => destruct x eqn:?; try discriminate H
  end;
  try (injection H as H; subst).

Lemma Ret_session (r : outcome Bash) : is_Ret r = true -> r = Ret (session r).
Proof. destruct r; cbn [is_Ret session]; intros H; [reflexivity | discriminate H ..]. Qed.

Lemma exec_events (h : Host) (sched : list event) (b : Bash) :
  exec h b (map Ev sched) = steps b sched.
Proof.
  revert b. induction sched as [|e sched IH]; intros b; cbn [map exec perform steps].
  - reflexivity.
  - destruct (step b e); cbn [bind]; auto.
Qed.

(** A transition changes the caller only by completing its select. *)
Lemma step_caller (b b1 : Bash) (e : event) :
  step b e = Ret b1 ->
  caller b1 = caller b \/
  (caller b = InSelect /\ exists o err, caller b1 = Returned o err).
Proof.
  intros H. destruct e; step_cases H;
    cbn [caller set_caller set_stdout set_stderr set_exited]; auto; right; split; eauto.
Qed.

Lemma step_Returned (b b1 : Bash) (e : event) (o : string) (err : option error) :
  step b e = Ret b1 -> caller b = Returned o err -> caller b1 = Returned o err.
Proof.
  intros H Hc. destruct (step_caller _ _ _ H) as [E | [E _]]; congruence.
Qed.

Lemma steps_Returned (sched : list event) (b b1 : Bash) (o : string) (err : option error) :
  steps b sched = Ret b1 -> caller b = Returned o err -> caller b1 = Returned o err.
Proof.
  revert b. induction sched as [|e sched IH]; intros b H Hc; cbn [steps] in H.
  - injection H as <-. exact Hc.
  - destruct (step b e) as [b2| |] eqn:E; cbn [bind] in H; try discriminate.
    eapply IH; eauto using step_Returned.
Qed.

Lemma steps_InSelect_start (sched : list event) (b b1 : Bash) :
  steps b sched = Ret b1 -> caller b1 = InSelect -> caller b = InSelect.
Proof.
  revert b. induction sched as [|e sched IH]; intros b H Hc; cbn [steps] in H.
  - injection H as <-. exact Hc.
  - destruct (step b e) as [b2| |] eqn:E; cbn [bind] in H; try discriminate.
    specialize (IH _ H Hc).
    destruct (step_caller _ _ _ E) as [E1 | [E1 _]]; congruence.
Qed.

(** *** Standard error *)

(** While the select is pending, a listener blocked in its send stays
    blocked with the same message. *)
Lemma step_keeps_stderr_send (b b1 : Bash) (e : event) :
  step b e = Ret b1 -> se_pc (stderr_l b) = SendErr ->
  caller b1 = InSelect -> stderr_l b1 = stderr_l b.
Proof.
  intros H Hp Hc. destruct e; step_cases H;
    cbn [stderr_l set_stdout set_stderr set_caller caller set_exited] in *; congruence.
Qed.

Lemma steps_keeps_stderr_send (sched : list event) (b b1 : Bash) :
  steps b sched = Ret b1 -> se_pc (stderr_l b) = SendErr ->
  caller b1 = InSelect -> stderr_l b1 = stderr_l b.
Proof.
  revert b. induction sched as [|e sched IH]; intros b H Hp Hc; cbn [steps] in H.
  - injection H as <-. reflexivity.
  - destruct (step b e) as [b2| |] eqn:E; cbn [bind] in H; try discriminate.
    assert (Hc2 : caller b2 = InSelect) by (eapply steps_InSelect_start; eauto).
    pose proof (step_keeps_stderr_send _ _ _ E Hp Hc2) as E2.
    rewrite <- E2. apply IH; congruence.
Qed.

Lemma stderr_on_read_msg (l : stderrState) (chunk : string) :
  se_msg (stderr_on_read l chunk) = errors_New chunk /\
  se_pc (stderr_on_read l chunk) = SendErr.
Proof.
  unfold stderr_on_read, write_at. cbn [se_msg se_pc].
  rewrite slice_to_0. cbn [String.append]. now rewrite slice_to_append.
Qed.

(** C5, as the code has it.  A chunk read from standard error while a
    call of [Run] is pending is offered on the error channel as
    [errors.New(chunk)], and stays on offer for as long as the call is
    pending, whatever [stdoutHandler] accumulates or offers meanwhile
    (whatever the exit status of the command).  When the select of [Run]
    takes that offer, [Run] returns the empty output and an error whose
    message is exactly the chunk. *)
Theorem stderr_chunk_error (b b1 b2 : Bash) (chunk : string) (sched : list event) :
  caller b = InSelect ->
  step b (StderrRead chunk) = Ret b1 ->
  steps b1 sched = Ret b2 ->
  caller b2 = InSelect ->
  exists b3, step b2 StderrSend = Ret b3 /\
             caller b3 = Returned "" (Some (errors_New chunk)) /\
             Error (errors_New chunk) = chunk.
Proof.
  intros Hc H1 H2 Hc2.
  assert (Hl : stderr_l b1 = stderr_on_read (stderr_l b) chunk).
  { unfold step in H1. destruct (se_pc (stderr_l b)); try discriminate.
    destruct (negb (is_closed b Stderr) && (len chunk <=? bufferSize)); try discriminate.
    injection H1 as <-. reflexivity. }
  destruct (stderr_on_read_msg (stderr_l b) chunk) as [Hm Hp].
  assert (Hl2 : stderr_l b2 = stderr_l b1).
  { eapply steps_keeps_stderr_send; eauto. rewrite Hl. exact Hp. }
  unfold step. rewrite Hc2, Hl2, Hl, Hp, Hm. eexists. split; [reflexivity|].
  cbn [caller set_caller Error set_exited]. auto.
Qed.

Lemma stderr_chunk_error_witness :
  exists b3,
    step stderr_sample_later StderrSend = Ret b3 /\
    caller b3 = Returned "" (Some (errors_New stderr_sample)) /\
    Error (errors_New stderr_sample) = stderr_sample.
Proof.
  apply (stderr_chunk_error (pending_session "ls /x") stderr_sample_read
           stderr_sample_later stderr_sample [StdoutRead ("OK" +++ nl)]).
  - vm_compute; reflexivity.
  - apply Ret_session. vm_compute; reflexivity.
  - apply Ret_session. vm_compute; reflexivity.
  - vm_compute; reflexivity.
Defined.

(** C5, as the claim states it, fails.  [Run] is pending; the stderr
    listener reads a non-empty chunk; before its send is taken the stdout
    listener reads the sentinel OK and its send is the one the select
    takes: [Run] returns a nil error. *)
Lemma stderr_chunk_can_lose_race :
  returned (Run sample_host (new_Bash "/w" []) "ls /nonexistent; true"
              [StderrLoop; StdoutLoop;
               StderrRead ("ls: cannot access" +++ nl);
               StdoutRead ("OK" +++ nl);
               StdoutSend])
  = Some ("", None).
Proof. vm_compute. reflexivity. Qed.

(** *** The sentinels on standard output *)

Lemma stdout_on_read_OK (l : stdoutState) (chunk : string) :
  HasSuffix (stdout_r l chunk) "OK" = true ->
  so_pc (stdout_on_read l chunk) = SendOut /\
  output (stdout_on_read l chunk) =
    if 2 <? len (stdout_r l chunk)
    then slice_to (stdout_r l chunk) (len (stdout_r l chunk) - 3)
    else output l.
Proof.
  intros H. unfold stdout_on_read. rewrite H. cbn [so_pc output]. auto.
Qed.

(** When a newline separates the text from the sentinel, the text is what
    is sent. *)
Lemma stdout_on_read_OK_line (l : stdoutState) (chunk t : string) :
  stdout_r l chunk = t +++ nl +++ "OK" ->
  so_pc (stdout_on_read l chunk) = SendOut /\
  output (stdout_on_read l chunk) = t.
Proof.
  intros E.
  assert (H : HasSuffix (stdout_r l chunk) "OK" = true).
  { apply HasSuffix_true. exists (t +++ nl). rewrite E. now rewrite append_assoc. }
  destruct (stdout_on_read_OK l chunk H) as [Hp Ho]. split; [exact Hp|].
  rewrite Ho, E. rewrite !len_append.
  replace (2 <? len t + (len nl + len "OK")) with true
    by (symmetry; apply Nat.ltb_lt; cbn [len nl String.length]; lia).
  replace (len t + (len nl + len "OK") - 3) with (len t)
    by (cbn [len nl String.length]; lia).
  apply slice_to_append.
Qed.

Lemma stdout_on_read_output (l : stdoutState) (chunk : string) :
  so_pc (stdout_on_read l chunk) <> SendOut ->
  output (stdout_on_read l chunk) = output l.
Proof.
  unfold stdout_on_read.
  destruct (HasSuffix (stdout_r l chunk) "OK"); cbn [so_pc output]; [congruence|].
  destruct (HasSuffix (stdout_r l chunk) "FAILED"); reflexivity.
Qed.

Lemma step_output_reset (b b1 : Bash) (e : event) :
  step b e = Ret b1 -> output_reset b -> output_reset b1.
Proof.
  unfold output_reset. intros H Hi.
  destruct e; step_cases H; unfold stdout_after_send;
    repeat match goal with E : so_pc _ = _ |- _ => rewrite E in * end;
    cbn [stdout_l set_stdout set_stderr set_caller set_so_pc so_pc output set_exited];
    intros Hn;
    first [ reflexivity
          | apply Hi; congruence
          | rewrite (stdout_on_read_output _ _ Hn); apply Hi; congruence ].
Qed.

Lemma once_Do_init_output_reset (h : Host) (b b1 : Bash) :
  once_Do_init h b = Ret b1 -> output_reset b -> output_reset b1.
Proof.
  unfold once_Do_init, init, output_reset. intros H Hi.
  destruct (once b); [injection H as <-; exact Hi|].
  destruct (LookPath_bash h); try discriminate.
  destruct (StderrPipe_err h); try discriminate.
  destruct (StdinPipe_err h); try discriminate.
  destruct (StdoutPipe_err h); try discriminate.
  destruct (Start_err h); try discriminate.
  cbn [bind] in H. injection H as <-. reflexivity.
Qed.

Lemma perform_output_reset (h : Host) (b b1 : Bash) (a : action) :
  perform h b a = Ret b1 -> output_reset b -> output_reset b1.
Proof.
  intros H Hi. destruct a as [s| |e|s]; cbn [perform] in H.
  - assert (Hr : Run_enter h b s = Ret b1) by (destruct (caller b); try discriminate; exact H).
    clear H. unfold Run_enter in Hr.
    destruct (once_Do_init h b) as [b0| |] eqn:E; cbn [bind] in Hr; try discriminate.
    pose proof (once_Do_init_output_reset _ _ _ E Hi) as H0.
    unfold stdin_Write in Hr.
    repeat match type of Hr with
           | context [if ?c then _ else _] => destruct c
           end; injection Hr as <-; exact H0.
  - unfold Close in H.
    destruct (once_Do_init h b) as [b0| |] eqn:E; cbn [bind] in H; try discriminate.
    pose proof (once_Do_init_output_reset _ _ _ E Hi) as H0.
    injection H as <-. unfold stdin_Write.
    repeat match goal with
           | |- context [if ?c then _ else _] => destruct c
           end; exact H0.
  - eapply step_output_reset; eauto.
  - assert (Hr : Run_enter_exiting h b s = Ret b1)
      by (destruct (caller b); try discriminate; exact H).
    clear H. unfold Run_enter_exiting in Hr.
    destruct (once_Do_init h b) as [b0| |] eqn:E; cbn [bind] in Hr; try discriminate.
    pose proof (once_Do_init_output_reset _ _ _ E Hi) as H0.
    unfold stdin_Write in Hr.
    repeat match type of Hr with
           | context [if ?c then _ else _] => destruct c
           end; injection Hr as <-; exact H0.
Qed.

Lemma exec_output_reset (h : Host) (acts : list action) (b b1 : Bash) :
  exec h b acts = Ret b1 -> output_reset b -> output_reset b1.
Proof.
  revert b. induction acts as [|a acts IH]; intros b H Hi; cbn [exec] in H.
  - injection H as <-. exact Hi.
  - destruct (perform h b a) as [b2| |] eqn:E; cbn [bind] in H; try discriminate.
    eauto using perform_output_reset.
Qed.

Lemma step_keeps_stdout_send (b b1 : Bash) (e : event) :
  step b e = Ret b1 -> so_pc (stdout_l b) = SendOut ->
  caller b1 = InSelect -> stdout_l b1 = stdout_l b.
Proof.
  intros H Hp Hc. destruct e; step_cases H;
    cbn [stdout_l set_stdout set_stderr set_caller caller set_exited] in *; congruence.
Qed.

Lemma steps_keeps_stdout_send (sched : list event) (b b1 : Bash) :
  steps b sched = Ret b1 -> so_pc (stdout_l b) = SendOut ->
  caller b1 = InSelect -> stdout_l b1 = stdout_l b.
Proof.
  revert b. induction sched as [|e sched IH]; intros b H Hp Hc; cbn [steps] in H.
  - injection H as <-. reflexivity.
  - destruct (step b e) as [b2| |] eqn:E; cbn [bind] in H; try discriminate.
    assert (Hc2 : caller b2 = InSelect) by (eapply steps_InSelect_start; eauto).
    pose proof (step_keeps_stdout_send _ _ _ E Hp Hc2) as E2.
    rewrite <- E2. apply IH; congruence.
Qed.

(** C1, as the code has it.  In a session made by [new_Bash] and used in
    any way, [Run] is pending and [stdoutHandler] reads a chunk after which
    the trimmed content of its buffer is the sentinel OK alone, or a text
    [t], a newline and OK.  Then the listener offers [t] (the empty text in
    the first case) on the output channel, the offer stands for as long as
    the call is pending, and when the select of [Run] takes it [Run]
    returns [t] and a nil error. *)
Theorem ok_probe_returns_text (h : Host) (dir : string) (env : list string)
    (acts : list action) (b b1 b2 : Bash) (chunk t : string) (sched : list event) :
  exec h (new_Bash dir env) acts = Ret b ->
  caller b = InSelect ->
  step b (StdoutRead chunk) = Ret b1 ->
  stdout_r (stdout_l b) chunk = t +++ nl +++ "OK" \/
  (stdout_r (stdout_l b) chunk = "OK" /\ t = "") ->
  steps b1 sched = Ret b2 ->
  caller b2 = InSelect ->
  exists b3, step b2 StdoutSend = Ret b3 /\ caller b3 = Returned t None.
Proof.
  intros Hreach Hc H1 Hr H2 Hc2.
  assert (Hi : output_reset b).
  { eapply exec_output_reset; eauto. intros _. reflexivity. }
  assert (Hb : so_pc (stdout_l b) = InRead /\
               stdout_l b1 = stdout_on_read (stdout_l b) chunk).
  { unfold step in H1. destruct (so_pc (stdout_l b)); try discriminate.
    destruct (negb (is_closed b Stdout) && _); try discriminate.
    injection H1 as <-. split; reflexivity. }
  destruct Hb as [Hp Hl].
  assert (Hs : so_pc (stdout_on_read (stdout_l b) chunk) = SendOut /\
               output (stdout_on_read (stdout_l b) chunk) = t).
  { destruct Hr as [E | [E ->]].
    - now apply stdout_on_read_OK_line.
    - assert (HS : HasSuffix (stdout_r (stdout_l b) chunk) "OK" = true)
        by (rewrite E; reflexivity).
      destruct (stdout_on_read_OK _ _ HS) as [Hq Ho]. split; [exact Hq|].
      rewrite Ho, E. cbn [len String.length Nat.ltb Nat.leb].
      apply Hi. congruence. }
  destruct Hs as [Hq Ho].
  assert (Hl2 : stdout_l b2 = stdout_l b1).
  { eapply steps_keeps_stdout_send; eauto. rewrite Hl. exact Hq. }
  unfold step. rewrite Hc2, Hl2, Hl, Hq, Ho. eexists. split; reflexivity.
Qed.

Lemma ok_probe_witness :
  exists b3, step ok_sample_later StdoutSend = Ret b3 /\ caller b3 = Returned "hello" None.
Proof.
  apply (ok_probe_returns_text sample_host "/w" []
           [Call_Run "echo hello"; Ev StdoutLoop; Ev StderrLoop]
           (pending_session "echo hello") ok_sample_read ok_sample_later
           ("hello" +++ nl +++ "OK" +++ nl) "hello" [StderrReadErr]).
  - apply Ret_session. vm_compute; reflexivity.
  - vm_compute; reflexivity.
  - apply Ret_session. vm_compute; reflexivity.
  - left. vm_compute; reflexivity.
  - apply Ret_session. vm_compute; reflexivity.
  - vm_compute; reflexivity.
Defined.

(** C1, as the claim states it, fails.  The command exits with status 0
    and the probe prints OK, but the command also wrote to standard
    error: the select takes the error of [stderrHandler] and [Run] returns
    it. *)
Lemma exit_0_with_stderr_returns_error :
  returned (Run sample_host (new_Bash "/w" []) "echo warn >&2"
              [StderrLoop; StdoutLoop;
               StderrRead ("warn" +++ nl);
               StdoutRead ("OK" +++ nl);
               StderrSend])
  = Some ("", Some (errors_New ("warn" +++ nl))).
Proof. vm_compute. reflexivity. Qed.

(** Where no newline separates the text from the sentinel the listener
    still cuts [len("\nOK")] bytes: [printf foo] leaves [fooOK] and a
    newline on standard output, and [Run] returns [fo]. *)
Lemma Run_OK_without_newline_drops_byte :
  returned (Run sample_host (new_Bash "/w" []) "printf foo"
              [StdoutLoop; StdoutRead ("fooOK" +++ nl); StdoutSend])
  = Some ("fo", None).
Proof. vm_compute. reflexivity. Qed.

Lemma stdout_on_read_FAILED (l : stdoutState) (chunk : string) :
  HasSuffix (stdout_r l chunk) "FAILED" = true ->
  so_pc (stdout_on_read l chunk) = SendErr.
Proof.
  intros H. unfold stdout_on_read.
  rewrite (HasSuffix_FAILED_not_OK _ H), H. reflexivity.
Qed.

Lemma step_failing (b b1 : Bash) (e : event) :
  step b e = Ret b1 -> failing b -> failing b1.
Proof.
  intros H [[Hc Hp] | [x Hx]].
  - destruct e; step_cases H; unfold failing;
      cbn [caller stdout_l set_stdout set_stderr set_caller set_so_pc so_pc set_exited] in *;
      try congruence; eauto.
  - right. exists x. eapply step_Returned; eauto.
Qed.

Lemma steps_failing (sched : list event) (b b1 : Bash) :
  steps b sched = Ret b1 -> failing b -> failing b1.
Proof.
  revert b. induction sched as [|e sched IH]; intros b H Hf; cbn [steps] in H.
  - injection H as <-. exact Hf.
  - destruct (step b e) as [b2| |] eqn:E; cbn [bind] in H; try discriminate.
    eauto using step_failing.
Qed.

(** C6, as the code has it.  [Run] is pending and [stdoutHandler] reads a
    chunk after which the trimmed content of its buffer ends with FAILED.
    Then, under every schedule of the listeners: as long as the call is
    pending the select can take the listener's send, and [Run] returns the
    empty output with the error "command has failed"; and whenever the call
    has returned, it returned the empty output and a non-nil error. *)
Theorem failed_probe_returns_error (b b1 b2 : Bash) (chunk : string) (sched : list event) :
  caller b = InSelect ->
  step b (StdoutRead chunk) = Ret b1 ->
  HasSuffix (stdout_r (stdout_l b) chunk) "FAILED" = true ->
  steps b1 sched = Ret b2 ->
  (caller b2 = InSelect ->
   exists b3, step b2 StdoutSend = Ret b3 /\
              caller b3 = Returned "" (Some (errors_New "command has failed"))) /\
  (forall o err, caller b2 = Returned o err -> o = "" /\ err <> None).
Proof.
  intros Hc H1 HF H2.
  assert (Hf : failing b1).
  { left. unfold step in H1. destruct (so_pc (stdout_l b)); try discriminate.
    destruct (negb (is_closed b Stdout) && _); try discriminate.
    injection H1 as <-. cbn [caller stdout_l set_stdout set_exited]. split; [exact Hc|].
    now apply stdout_on_read_FAILED. }
  pose proof (steps_failing _ _ _ H2 Hf) as [[Hc2 Hp2] | [x Hx]]; split.
  - intros _. unfold step. rewrite Hc2, Hp2. eexists. split; reflexivity.
  - intros o err E. congruence.
  - intros E. congruence.
  - intros o err E. rewrite Hx in E. injection E as <- <-.
    split; [reflexivity | discriminate].
Qed.

Lemma failed_probe_witness :
  (caller failed_sample_later = InSelect ->
   exists b3, step failed_sample_later StdoutSend = Ret b3 /\
              caller b3 = Returned "" (Some (errors_New "command has failed"))) /\
  (forall o err, caller failed_sample_later = Returned o err -> o = "" /\ err <> None).
Proof.
  apply (failed_probe_returns_error (pending_session "false") failed_sample_read
           failed_sample_later ("FAILED" +++ nl) [StderrReadErr]).
  - vm_compute; reflexivity.
  - apply Ret_session. vm_compute; reflexivity.
  - vm_compute; reflexivity.
  - apply Ret_session. vm_compute; reflexivity.
Defined.

(** C6, as the claim states it, fails.  The command [echo OK; false]
    exits with a nonzero status and writes nothing to standard error: the
    output of the process is its OK line followed by the FAILED of the
    probe.  The listener reads the OK line first and takes it for the
    sentinel, and [Run] returns the empty output and a nil error.  So it
    does when the failing command is [false] and an OK is still on offer
    from the call before, which returned the error of [stderrHandler]. *)
Lemma failing_command_can_return_nil_error :
  HasSuffix (TrimSpace (stdout_of own_OK_sched)) "FAILED" = true /\
  stderr_of own_OK_sched = "" /\
  returned (Run sample_host (new_Bash "/w" []) "echo OK; false" own_OK_sched)
  = Some ("", None) /\
  caller (session (exec sample_host (new_Bash "/w" [])
            [Call_Run "echo warn >&2"; Ev StderrLoop; Ev StdoutLoop;
             Ev (StderrRead ("warn" +++ nl)); Ev (StdoutRead ("OK" +++ nl));
             Ev StderrSend;
             Call_Run "false"; Ev StdoutSend]))
  = Returned "" None.
Proof. repeat split; vm_compute; reflexivity. Qed.

(** *** A full buffer *)

Lemma stdout_r_from_0 (l : stdoutState) (chunk : string) :
  cur l = 0 -> stdout_r l chunk = TrimSpace chunk.
Proof.
  intros E. unfold stdout_r, write_at. rewrite E, slice_to_0.
  cbn [String.append Nat.add]. now rewrite slice_to_append.
Qed.

(** C8.  A read fills the buffer ([cur + n = bufferSize]) and the trimmed
    content ends with neither sentinel.  Then the position is back at
    zero; what was buffered is gone, for the next read sees only its own
    bytes; the listener is at the head of its loop and, unless the session
    was canceled, reads again; and nothing was sent: the caller is where it
    was and [stderrHandler] too. *)
Theorem overflow_resets (b : Bash) (chunk : string) :
  so_pc (stdout_l b) = InRead ->
  is_closed b Stdout = false ->
  cur (stdout_l b) + len chunk = bufferSize ->
  HasSuffix (stdout_r (stdout_l b) chunk) "OK" = false ->
  HasSuffix (stdout_r (stdout_l b) chunk) "FAILED" = false ->
  exists b1,
    step b (StdoutRead chunk) = Ret b1 /\
    cur (stdout_l b1) = 0 /\
    (forall chunk2, stdout_r (stdout_l b1) chunk2 = TrimSpace chunk2) /\
    so_pc (stdout_l b1) = AtLoop /\
    (canceled b1 = false ->
     exists b2, step b1 StdoutLoop = Ret b2 /\ so_pc (stdout_l b2) = InRead) /\
    caller b1 = caller b /\
    stderr_l b1 = stderr_l b.
Proof.
  intros Hp Hc Hfull Hok Hfailed.
  assert (Hl : stdout_on_read (stdout_l b) chunk =
    {| so_pc := AtLoop; output := output (stdout_l b);
       buffer := write_at (buffer (stdout_l b)) (cur (stdout_l b)) chunk;
       cur := 0 |}).
  { unfold stdout_on_read. rewrite Hok, Hfailed, Hfull, Nat.eqb_refl. reflexivity. }
  exists (set_stdout b (stdout_on_read (stdout_l b) chunk)).
  split.
  { unfold step. rewrite Hp, Hc.
    replace (len chunk <=? bufferSize - cur (stdout_l b)) with true
      by (symmetry; apply Nat.leb_le; lia).
    reflexivity. }
  rewrite Hl. cbn [stdout_l set_stdout cur so_pc caller stderr_l canceled set_exited].
  repeat split.
  - intros chunk2. now apply stdout_r_from_0.
  - intros Hcan. unfold step. cbn [stdout_l set_stdout so_pc canceled set_exited].
    rewrite Hcan. eexists. split; reflexivity.
Qed.

Lemma overflow_resets_witness :
  exists b1,
    step (pending_session "yes a") (StdoutRead overflow_chunk) = Ret b1 /\
    cur (stdout_l b1) = 0 /\
    (forall chunk2, stdout_r (stdout_l b1) chunk2 = TrimSpace chunk2) /\
    so_pc (stdout_l b1) = AtLoop /\
    (canceled b1 = false ->
     exists b2, step b1 StdoutLoop = Ret b2 /\ so_pc (stdout_l b2) = InRead) /\
    caller b1 = caller (pending_session "yes a") /\
    stderr_l b1 = stderr_l (pending_session "yes a").
Proof.
  apply (overflow_resets (pending_session "yes a") overflow_chunk).
  - vm_compute; reflexivity.
  - vm_compute; reflexivity.
  - apply Nat.eqb_eq. vm_compute; reflexivity.
  - vm_compute; reflexivity.
  - vm_compute; reflexivity.
Defined.

(** *** After [Close] *)

Lemma step_once_canceled (b b1 : Bash) (e : event) :
  step b e = Ret b1 -> once b1 = once b /\ canceled b1 = canceled b.
Proof.
  intros H. destruct e; step_cases H;
    cbn [once canceled set_stdout set_stderr set_caller set_exited]; auto.
Qed.

Lemma Run_enter_closed (h : Host) (b : Bash) (s : string) :
  closed_inv b ->
  Run_enter h b s = Ret (set_caller b (Returned "" (Some context_Canceled))).
Proof.
  intros [Ho Hc]. unfold Run_enter, once_Do_init. rewrite Ho.
  cbn [bind]. rewrite Hc. reflexivity.
Qed.

Lemma Close_closed_inv (h : Host) (b b1 : Bash) :
  Close h b = Ret b1 -> closed_inv b1.
Proof.
  unfold Close. intros H.
  destruct (once_Do_init h b) as [b0| |] eqn:E; cbn [bind] in H; try discriminate.
  assert (Ho : once b0 = true).
  { unfold once_Do_init in E. destruct (once b) eqn:Eo.
    - injection E as <-. exact Eo.
    - destruct (init h b); cbn [bind] in E; try discriminate.
      injection E as <-. reflexivity. }
  injection H as <-. unfold stdin_Write, closed_inv.
  destruct (is_closed _ Stdin); [|destruct (exited _)];
    cbn [fst once canceled]; auto.
Qed.

Lemma Run_enter_exiting_closed (h : Host) (b : Bash) (s : string) :
  closed_inv b ->
  Run_enter_exiting h b s = Ret (set_caller b (Returned "" (Some context_Canceled))).
Proof.
  intros [Ho Hc]. unfold Run_enter_exiting, once_Do_init. rewrite Ho.
  cbn [bind]. rewrite Hc. reflexivity.
Qed.

Lemma perform_closed_inv (h : Host) (b b1 : Bash) (a : action) :
  perform h b a = Ret b1 -> closed_inv b -> closed_inv b1.
Proof.
  intros H Hi. destruct a as [s| |e|s]; cbn [perform] in H.
  - destruct (caller b); try discriminate;
      rewrite (Run_enter_closed h b s Hi) in H; injection H as <-; exact Hi.
  - eapply Close_closed_inv; eauto.
  - destruct (step_once_canceled _ _ _ H) as [E1 E2].
    destruct Hi. split; congruence.
  - destruct (caller b); try discriminate;
      rewrite (Run_enter_exiting_closed h b s Hi) in H; injection H as <-; exact Hi.
Qed.

Lemma exec_closed_inv (h : Host) (acts : list action) (b b1 : Bash) :
  exec h b acts = Ret b1 -> closed_inv b -> closed_inv b1.
Proof.
  revert b. induction acts as [|a acts IH]; intros b H Hi; cbn [exec] in H.
  - injection H as <-. exact Hi.
  - destruct (perform h b a) as [b2| |] eqn:E; cbn [bind] in H; try discriminate.
    eauto using perform_closed_inv.
Qed.

(** C7.  [Close] returned, and anything happened to the session since
    (calls of [Run] and [Close], transitions of the listeners).  Then the
    body of [Run] returns at once, at its first test, with the empty
    output and the context's cancellation error, and the process's
    standard input received nothing more; with no call pending, the call
    of [Run] needs no transition of a listener to return that. *)
Theorem Run_after_Close (h : Host) (b b1 b2 : Bash) (acts : list action) (s : string) :
  Close h b = Ret b1 ->
  exec h b1 acts = Ret b2 ->
  exists b3,
    Run_enter h b2 s = Ret b3 /\
    caller b3 = Returned "" (Some context_Canceled) /\
    stdin b3 = stdin b2 /\
    (caller b2 <> InSelect ->
     Run h b2 s [] = Ret (b3, ("", Some context_Canceled))).
Proof.
  intros Hclose Hexec.
  assert (Hi : closed_inv b2)
    by (eapply exec_closed_inv; eauto using Close_closed_inv).
  exists (set_caller b2 (Returned "" (Some context_Canceled))).
  rewrite (Run_enter_closed h b2 s Hi). repeat split.
  intros Hn. unfold Run. cbn [map exec perform].
  destruct (caller b2) eqn:Ec; try congruence;
    rewrite (Run_enter_closed h b2 s Hi); reflexivity.
Qed.

Lemma Run_after_Close_witness :
  exists b3,
    Run_enter sample_host closed_sample_later "echo again" = Ret b3 /\
    caller b3 = Returned "" (Some context_Canceled) /\
    stdin b3 = stdin closed_sample_later /\
    (caller closed_sample_later <> InSelect ->
     Run sample_host closed_sample_later "echo again" [] =
       Ret (b3, ("", Some context_Canceled))).
Proof.
  apply (Run_after_Close sample_host (pending_session "sleep 1") closed_sample
           closed_sample_later [Ev CtxDone; Call_Run "echo hi"; Call_Close] "echo again").
  - apply Ret_session. vm_compute; reflexivity.
  - apply Ret_session. vm_compute; reflexivity.
Defined.

(** ** Further properties of the session *)

(** The three pipes, in the order [init] makes them. *)
Definition all_pipes : list pipe := [Stderr; Stdin; Stdout].

(** What one call of [Run] writes to the process. *)
Definition run_writes (s : string) : list string := [s +++ nl; checkStatus +++ nl].

(** The first failure [init] meets on a host, in the order of its
    steps; [None] when it meets none. *)
Definition host_error (h : Host) : option string :=
  match LookPath_bash h with
  | inr e => Some e
  | inl _ =>
      match StderrPipe_err h with
      | Some e => Some e
      | None =>
          match StdinPipe_err h with
          | Some e => Some e
          | None =>
              match StdoutPipe_err h with
              | Some e => Some e
              | None => Start_err h
              end
          end
      end
  end.

(** A host on which [bash] is not found. *)
Definition broken_host : Host :=
  {| LookPath_bash := inr "exec: bash: executable file not found in $PATH";
     os_Environ := []; StderrPipe_err := None; StdinPipe_err := None;
     StdoutPipe_err := None; Start_err := None |}.


(** The shape of a session at every moment of its life: either nothing
    was initialised, or the three pipes exist and none is closed and the
    context is live, or [Close] was called: the context is canceled, every
    pipe is closed and the process has exited. *)
Definition protocol (b : Bash) : Prop :=
  (once b = false /\ resources b = [] /\ closed b = [] /\ stdin b = [] /\
   canceled b = false /\ exited b = false) \/
  (once b = true /\ resources b = all_pipes /\
   ((closed b = [] /\ canceled b = false) \/
    ((forall p, is_closed b p = true) /\ canceled b = true /\ exited b = true))).



(** A session whose call returned the failure of its command. *)
Definition failed_returned : Bash :=
  session (exec sample_host (new_Bash "/w" [])
             [Call_Run "false"; Ev StdoutLoop; Ev StderrLoop;
              Ev (StdoutRead ("FAILED" +++ nl)); Ev StdoutSend]).

(** The bytes [stdoutHandler] has accumulated since it last reset. *)
Definition pending (l : stdoutState) : string := slice_to (buffer l) (cur l).

(** The buffer of [stdoutHandler] keeps its size and the position stays
    inside it. *)
Definition buffer_inv (b : Bash) : Prop :=
  so_pc (stdout_l b) <> NotStarted ->
  len (buffer (stdout_l b)) = bufferSize /\ cur (stdout_l b) < bufferSize.

(** Before the initialisation nobody waits and no listener runs. *)
Definition idle_before_init (b : Bash) : Prop :=
  once b = false ->
  caller b = Idle /\ so_pc (stdout_l b) = NotStarted /\
  se_pc (stderr_l b) = NotStarted.

(** A session in which the output of [warn] won the race against its
    error: the call returned, the error is still on offer. *)
Definition stale_sample : Bash :=
  session (exec sample_host (new_Bash "/w" [])
             [Call_Run "warn"; Ev StderrLoop; Ev StdoutLoop;
              Ev (StderrRead ("warning" +++ nl));
              Ev (StdoutRead ("OK" +++ nl)); Ev StdoutSend]).

(** A session whose command failed and whose listener still offers the
    failure. *)
Definition failing_sample : Bash :=
  session (exec sample_host (new_Bash "/w" [])
             [Call_Run "false"; Ev StdoutLoop; Ev StderrLoop;
              Ev (StdoutRead ("FAILED" +++ nl))]).

(** The same when the command has also ended the process. *)
Definition exited_failing_sample : Bash :=
  session (exec sample_host (new_Bash "/w" [])
             [Call_Run "echo FAILED; exit 0"; Ev StdoutLoop; Ev StderrLoop;
              Ev (StdoutRead ("FAILED" +++ nl)); Ev ProcessExit]).

Definition accumulate_sample : Bash :=
  session (step (pending_session "printf hello; echo") (StdoutRead "hel")).

(** A call never returns an output together with an error. *)
Definition result_inv (b : Bash) : Prop :=
  forall o e, caller b = Returned o (Some e) -> o = "".

(** *** Initialisation *)

Lemma init_outcome (h : Host) (b : Bash) :
  match host_error h with
  | Some e => init h b = Panic e
  | None => exists b1, init h b = Ret b1 /\
              resources b1 = resources b ++ all_pipes /\
              closed b1 = closed b /\ stdin b1 = stdin b /\
              canceled b1 = false /\ caller b1 = caller b /\
              so_pc (stdout_l b1) = AtLoop /\ cur (stdout_l b1) = 0 /\
              buffer (stdout_l b1) = make_buffer /\ output (stdout_l b1) = "" /\
              se_pc (stderr_l b1) = AtLoop /\ exited b1 = false
  end.
Proof.
  unfold host_error, init.
  destruct (LookPath_bash h); [|reflexivity].
  destruct (StderrPipe_err h); [reflexivity|].
  destruct (StdinPipe_err h); [reflexivity|].
  destruct (StdoutPipe_err h); [reflexivity|].
  destruct (Start_err h); [reflexivity|].
  eexists. split; [reflexivity|].
  cbn [resources closed stdin canceled caller stdout_l stderr_l so_pc cur buffer output
       se_pc exited].
  rewrite <- !app_assoc. repeat split.
Qed.

(** X1.  On a session that was never used, the first call, [Run] or
    [Close], panics with the first error of the initialisation when the
    host has one and returns otherwise; a failed initialisation is never
    turned into an error value. *)
Theorem first_call_panics_iff_init_fails (h : Host) (b : Bash) (s : string) :
  once b = false ->
  match host_error h with
  | Some e => Run_enter h b s = Panic e /\ Close h b = Panic e
  | None => is_Ret (Run_enter h b s) = true /\ is_Ret (Close h b) = true
  end.
Proof.
  intros Ho. pose proof (init_outcome h b) as Hi.
  unfold Run_enter, Close, once_Do_init. rewrite Ho.
  destruct (host_error h) as [e|].
  - rewrite Hi. split; reflexivity.
  - destruct Hi as (b1 & -> & _). cbn [bind canceled]. split; [|reflexivity].
    unfold stdin_Write.
    repeat match goal with
           | |- context [if ?c then _ else _] => destruct c
           end; reflexivity.
Qed.

Lemma first_call_panics_witness :
  Run_enter broken_host (new_Bash "/w" []) "true" =
    Panic "exec: bash: executable file not found in $PATH" /\
  Close broken_host (new_Bash "/w" []) =
    Panic "exec: bash: executable file not found in $PATH".
Proof.
  apply (first_call_panics_iff_init_fails broken_host (new_Bash "/w" []) "true").
  reflexivity.
Defined.

Lemma once_Do_init_fields (h : Host) (b b0 : Bash) :
  once_Do_init h b = Ret b0 ->
  once b0 = true /\ caller b0 = caller b /\ stdin b0 = stdin b /\
  closed b0 = closed b /\
  (if once b then b0 = b
   else resources b0 = resources b ++ all_pipes /\ canceled b0 = false /\
        so_pc (stdout_l b0) = AtLoop /\ cur (stdout_l b0) = 0 /\
        buffer (stdout_l b0) = make_buffer /\ output (stdout_l b0) = "" /\
        se_pc (stderr_l b0) = AtLoop /\ exited b0 = false).
Proof.
  unfold once_Do_init. destruct (once b) eqn:Ho.
  - intros H. injection H as <-. auto.
  - pose proof (init_outcome h b) as Hi.
    destruct (host_error h); [rewrite Hi; discriminate|].
    destruct Hi as (b1 & -> & H1 & H2 & H3 & H4 & H5 & H6). cbn [bind].
    intros H. injection H as <-.
    cbn [once caller stdin closed resources canceled stdout_l stderr_l exited]. tauto.
Qed.

Lemma once_Do_init_again (h : Host) (b b0 : Bash) :
  once_Do_init h b = Ret b0 -> once_Do_init h b0 = Ret b0.
Proof.
  intros H. destruct (once_Do_init_fields _ _ _ H) as [Ho _].
  unfold once_Do_init. now rewrite Ho.
Qed.

Lemma Run_enter_after_init (h : Host) (b b0 : Bash) (s : string) :
  once_Do_init h b = Ret b0 -> Run_enter h b s = Run_enter h b0 s.
Proof.
  intros H. unfold Run_enter. now rewrite H, (once_Do_init_again _ _ _ H).
Qed.

Lemma Run_enter_exiting_after_init (h : Host) (b b0 : Bash) (s : string) :
  once_Do_init h b = Ret b0 -> Run_enter_exiting h b s = Run_enter_exiting h b0 s.
Proof.
  intros H. unfold Run_enter_exiting. now rewrite H, (once_Do_init_again _ _ _ H).
Qed.

Lemma Close_after_init (h : Host) (b b0 : Bash) :
  once_Do_init h b = Ret b0 -> Close h b = Close h b0.
Proof.
  intros H. unfold Close. now rewrite H, (once_Do_init_again _ _ _ H).
Qed.

(** What a call of [Run] refused before its first write leaves: the
    session as it was, and an error. *)
Definition refused (b b1 : Bash) : Prop :=
  stdin b1 = stdin b /\ exited b1 = exited b /\
  ((canceled b = true /\ caller b1 = Returned "" (Some context_Canceled)) \/
   (canceled b = false /\ is_closed b Stdin = true /\
    caller b1 = Returned "" (Some os_ErrClosed)) \/
   (canceled b = false /\ is_closed b Stdin = false /\ exited b = true /\
    caller b1 = Returned "" (Some syscall_EPIPE))).

(** What no call of [Run] changes. *)
Definition Run_frame (b b1 : Bash) : Prop :=
  once b1 = true /\ resources b1 = resources b /\ closed b1 = closed b /\
  canceled b1 = canceled b /\ stdout_l b1 = stdout_l b /\ stderr_l b1 = stderr_l b.

(** [Run] up to its select, on an initialised session: either it is
    refused and leaves the session alone, or it writes the command and the
    probe and waits. *)
Lemma Run_enter_fields (h : Host) (b b1 : Bash) (s : string) :
  once b = true ->
  Run_enter h b s = Ret b1 ->
  Run_frame b b1 /\
  (refused b b1 \/
   (canceled b = false /\ is_closed b Stdin = false /\ exited b = false /\
    stdin b1 = stdin b ++ run_writes s /\ caller b1 = InSelect /\
    exited b1 = false)).
Proof.
  intros Ho. unfold Run_enter, once_Do_init, Run_frame, refused. rewrite Ho. cbn [bind].
  destruct (canceled b) eqn:Hc.
  - intros H. injection H as <-.
    cbn [once resources closed canceled stdout_l stderr_l stdin caller exited
         set_caller].
    tauto.
  - unfold stdin_Write. destruct (is_closed b Stdin) eqn:Hs.
    + intros H. injection H as <-.
      cbn [once resources closed canceled stdout_l stderr_l stdin caller exited
           set_caller].
      tauto.
    + destruct (exited b) eqn:He.
      * intros H. injection H as <-.
        cbn [once resources closed canceled stdout_l stderr_l stdin caller exited
             set_caller].
        tauto.
      * unfold is_closed in *. cbn [closed exited]. rewrite Hs.
        intros H. injection H as <-.
        cbn [once resources closed canceled stdout_l stderr_l stdin caller exited
             set_caller].
        rewrite <- app_assoc. cbn [app run_writes]. tauto.
Qed.

(** The same when the process exits between the two writes: the command
    is written, the probe is not, and the call returns the error of the
    second write. *)
Lemma Run_enter_exiting_fields (h : Host) (b b1 : Bash) (s : string) :
  once b = true ->
  Run_enter_exiting h b s = Ret b1 ->
  Run_frame b b1 /\
  (refused b b1 \/
   (canceled b = false /\ is_closed b Stdin = false /\ exited b = false /\
    stdin b1 = stdin b ++ [s +++ nl] /\
    caller b1 = Returned "" (Some syscall_EPIPE) /\
    exited b1 = true)).
Proof.
  intros Ho. unfold Run_enter_exiting, once_Do_init, Run_frame, refused.
  rewrite Ho. cbn [bind].
  destruct (canceled b) eqn:Hc.
  - intros H. injection H as <-.
    cbn [once resources closed canceled stdout_l stderr_l stdin caller exited
         set_caller].
    tauto.
  - unfold stdin_Write. destruct (is_closed b Stdin) eqn:Hs.
    + intros H. injection H as <-.
      cbn [once resources closed canceled stdout_l stderr_l stdin caller exited
           set_caller].
      tauto.
    + destruct (exited b) eqn:He.
      * intros H. injection H as <-.
        cbn [once resources closed canceled stdout_l stderr_l stdin caller exited
             set_caller].
        tauto.
      * unfold is_closed in *. cbn [closed exited set_exited]. rewrite Hs.
        intros H. injection H as <-.
        cbn [once resources closed canceled stdout_l stderr_l stdin caller exited
             set_caller].
        tauto.
Qed.

(** [Close] on an initialised session. *)
Lemma Close_fields (h : Host) (b b1 : Bash) :
  once b = true ->
  Close h b = Ret b1 ->
  once b1 = true /\ resources b1 = resources b /\
  closed b1 = closed b ++ resources b /\ canceled b1 = true /\
  stdout_l b1 = stdout_l b /\ stderr_l b1 = stderr_l b /\ caller b1 = caller b /\
  stdin b1 = (if is_closed b Stdin || exited b then stdin b
              else stdin b ++ ["exit 0" +++ nl]) /\
  exited b1 = true.
Proof.
  intros Ho. unfold Close, once_Do_init. rewrite Ho. cbn [bind].
  unfold stdin_Write, is_closed. cbn [closed exited].
  destruct (existsb (pipe_eqb Stdin) (closed b)); [|destruct (exited b)];
    intros H; injection H as <-;
    cbn [fst once resources closed canceled stdout_l stderr_l stdin caller exited orb];
    tauto.
Qed.

(** The listeners and the select write nothing and open or close
    nothing. *)
Lemma step_frame (b b1 : Bash) (e : event) :
  step b e = Ret b1 ->
  once b1 = once b /\ canceled b1 = canceled b /\ resources b1 = resources b /\
  closed b1 = closed b /\ stdin b1 = stdin b.
Proof.
  intros H. destruct e; step_cases H;
    cbn [once canceled resources closed stdin set_stdout set_stderr set_caller set_exited]; auto.
Qed.

(** Only the exit of the process changes [exited], and it happens to a
    started process that has not exited. *)
Lemma step_exited (b b1 : Bash) (e : event) :
  step b e = Ret b1 ->
  match e with
  | ProcessExit => once b = true /\ exited b = false /\ exited b1 = true
  | _ => exited b1 = exited b
  end.
Proof.
  intros H. destruct e; step_cases H;
    cbn [exited set_stdout set_stderr set_caller set_exited]; auto.
  match goal with E : _ && _ = true |- _ => apply andb_true_iff in E as [E1 E2] end.
  apply negb_true_iff in E2. auto.
Qed.

(** *** The protocol on standard input *)

Lemma is_closed_app (b b' : Bash) (p : pipe) (l : list pipe) :
  closed b' = closed b ++ l ->
  is_closed b' p = is_closed b p || existsb (pipe_eqb p) l.
Proof. unfold is_closed. intros ->. apply existsb_app. Qed.

Lemma all_pipes_closed (p : pipe) : existsb (pipe_eqb p) all_pipes = true.
Proof. destruct p; reflexivity. Qed.

Lemma protocol_initialised (b : Bash) :
  protocol b -> once b = true ->
  resources b = all_pipes /\
  ((closed b = [] /\ canceled b = false) \/
   ((forall p, is_closed b p = true) /\ canceled b = true /\ exited b = true)).
Proof. intros [(H & _) | (_ & H)] Ho; [congruence | exact H]. Qed.

Lemma once_Do_init_protocol (h : Host) (b b0 : Bash) :
  once_Do_init h b = Ret b0 -> protocol b -> protocol b0.
Proof.
  intros H Hp. destruct (once_Do_init_fields _ _ _ H) as (Ho & _ & Hs & Hc & Hr).
  destruct (once b) eqn:E; [now subst|].
  destruct Hp as [(_ & R & C & S & _) | (Ho' & _)]; [|congruence].
  destruct Hr as (Hr & Hcan & _).
  right. split; [exact Ho|]. split; [now rewrite Hr, R|].
  left. split; congruence.
Qed.

(** Whatever a call of [Run] does, it keeps the shape. *)
Lemma Run_frame_protocol (b b1 : Bash) :
  Run_frame b b1 -> once b = true ->
  (exited b = true -> exited b1 = true) -> protocol b -> protocol b1.
Proof.
  intros (Ho1 & R & C & Ca & _) Ho He Hp.
  destruct (protocol_initialised _ Hp Ho) as (HR & Hst).
  right. split; [exact Ho1|]. split; [congruence|].
  destruct Hst as [(Hn & Hf) | (Hall & Ht & Hx)].
  - left. split; congruence.
  - right. repeat split; try congruence; auto.
    intros p. unfold is_closed. rewrite C. apply Hall.
Qed.

Lemma refused_exited (b b1 : Bash) :
  refused b b1 -> exited b = true -> exited b1 = true.
Proof. intros (_ & E & _) H. congruence. Qed.

Lemma Run_enter_protocol (h : Host) (b b1 : Bash) (s : string) :
  Run_enter h b s = Ret b1 -> protocol b -> protocol b1.
Proof.
  intros H Hp.
  destruct (once_Do_init h b) as [b0| |] eqn:E;
    try (unfold Run_enter in H; rewrite E in H; discriminate H).
  rewrite (Run_enter_after_init _ _ _ s E) in H.
  pose proof (once_Do_init_protocol _ _ _ E Hp) as Hp0.
  destruct (once_Do_init_fields _ _ _ E) as (Ho & _).
  destruct (Run_enter_fields _ _ _ _ Ho H) as (Hf & Hcase).
  apply (Run_frame_protocol b0 b1 Hf Ho); [|exact Hp0].
  destruct Hcase as [Hr | (_ & _ & He & _)];
    [now apply refused_exited | congruence].
Qed.

Lemma Run_enter_exiting_protocol (h : Host) (b b1 : Bash) (s : string) :
  Run_enter_exiting h b s = Ret b1 -> protocol b -> protocol b1.
Proof.
  intros H Hp.
  destruct (once_Do_init h b) as [b0| |] eqn:E;
    try (unfold Run_enter_exiting in H; rewrite E in H; discriminate H).
  rewrite (Run_enter_exiting_after_init _ _ _ s E) in H.
  pose proof (once_Do_init_protocol _ _ _ E Hp) as Hp0.
  destruct (once_Do_init_fields _ _ _ E) as (Ho & _).
  destruct (Run_enter_exiting_fields _ _ _ _ Ho H) as (Hf & Hcase).
  apply (Run_frame_protocol b0 b1 Hf Ho); [|exact Hp0].
  destruct Hcase as [Hr | (_ & _ & _ & _ & _ & He)];
    [now apply refused_exited | auto].
Qed.

Lemma Close_protocol (h : Host) (b b1 : Bash) :
  Close h b = Ret b1 -> protocol b -> protocol b1.
Proof.
  intros H Hp.
  destruct (once_Do_init h b) as [b0| |] eqn:E;
    try (unfold Close in H; rewrite E in H; discriminate H).
  rewrite (Close_after_init _ _ _ E) in H.
  pose proof (once_Do_init_protocol _ _ _ E Hp) as Hp0.
  destruct (once_Do_init_fields _ _ _ E) as (Ho & _).
  destruct (Close_fields _ _ _ Ho H) as (Ho1 & R & C & Ca & _ & _ & _ & S & Hx).
  destruct (protocol_initialised _ Hp0 Ho) as (HR & Hst).
  right. split; [exact Ho1|]. split; [congruence|].
  right. split; [|split; [exact Ca | exact Hx]].
  intros p. rewrite (is_closed_app b0 b1 p _ C), HR, all_pipes_closed.
  apply orb_true_r.
Qed.

Lemma step_protocol (b b1 : Bash) (e : event) :
  step b e = Ret b1 -> protocol b -> protocol b1.
Proof.
  intros H Hp. destruct (step_frame _ _ _ H) as (Ho & Hc & Hr & Hcl & Hs).
  pose proof (step_exited _ _ _ H) as Hx.
  unfold protocol, is_closed in *. rewrite Ho, Hc, Hr, Hcl, Hs.
  destruct Hp as [(H1 & H2 & H3 & H4 & H5 & H6) | (H1 & H2 & [H3 | (H3 & H4 & H5)])].
  - left. repeat split; auto. destruct e; try congruence.
    destruct Hx as (Hx & _). congruence.
  - right. auto.
  - right. repeat split; auto. right. repeat split; auto.
    destruct e; try congruence. tauto.
Qed.

Lemma perform_protocol (h : Host) (b b1 : Bash) (a : action) :
  perform h b a = Ret b1 -> protocol b -> protocol b1.
Proof.
  destruct a as [s| |e|s]; cbn [perform].
  - destruct (caller b); try discriminate; apply Run_enter_protocol.
  - apply Close_protocol.
  - apply step_protocol.
  - destruct (caller b); try discriminate; apply Run_enter_exiting_protocol.
Qed.

Lemma exec_protocol (h : Host) (acts : list action) (b b1 : Bash) :
  exec h b acts = Ret b1 -> protocol b -> protocol b1.
Proof.
  revert b. induction acts as [|a acts IH]; intros b H Hp; cbn [exec] in H.
  - injection H as <-. exact Hp.
  - destruct (perform h b a) as [b2| |] eqn:E; cbn [bind] in H; try discriminate.
    eauto using perform_protocol.
Qed.

Lemma new_Bash_protocol (dir : string) (env : list string) : protocol (new_Bash dir env).
Proof. left. repeat split. Qed.

Lemma session_protocol_aux (h : Host) (dir : string) (env : list string)
    (acts : list action) (b : Bash) :
  exec h (new_Bash dir env) acts = Ret b -> protocol b.
Proof. intros H. eapply exec_protocol; eauto using new_Bash_protocol. Qed.







(** *** [Close] *)

Lemma Close_Ret (h : Host) (b : Bash) :
  once b = true -> exists b1, Close h b = Ret b1.
Proof.
  intros Ho. unfold Close, once_Do_init. rewrite Ho. cbn [bind].
  eexists. reflexivity.
Qed.

Lemma protocol_canceled (b : Bash) :
  protocol b -> canceled b = true ->
  once b = true /\ forall p, is_closed b p = true.
Proof.
  intros [(_ & _ & _ & _ & H & _) | (Ho & _ & [(_ & H) | (Hall & _ & _)])] Hc;
    try congruence. auto.
Qed.

(** X3.  [Close] is idempotent.  On a session made by [new_Bash] and used
    in any way, a second [Close] returns and changes nothing the first one
    left: no further byte reaches the process, the context stays canceled,
    the pipes stay closed, and the listeners and the caller are where they
    were. *)
Theorem Close_is_idempotent (h : Host) (dir : string) (env : list string)
    (acts : list action) (b b1 : Bash) :
  exec h (new_Bash dir env) acts = Ret b ->
  Close h b = Ret b1 ->
  exists b2,
    Close h b1 = Ret b2 /\
    stdin b2 = stdin b1 /\
    canceled b2 = true /\ canceled b1 = true /\
    (forall p, is_closed b2 p = true /\ is_closed b1 p = true) /\
    caller b2 = caller b1 /\
    stdout_l b2 = stdout_l b1 /\
    stderr_l b2 = stderr_l b1.
Proof.
  intros Hreach Hclose.
  assert (Hp1 : protocol b1).
  { eapply Close_protocol; eauto. eapply session_protocol_aux; eauto. }
  destruct (Close_closed_inv _ _ _ Hclose) as [Ho1 Hc1].
  destruct (protocol_canceled _ Hp1 Hc1) as [_ Hall1].
  destruct (Close_Ret h b1 Ho1) as [b2 H2]. exists b2.
  destruct (Close_fields _ _ _ Ho1 H2) as (_ & _ & C & Ca & So & Se & Cl & S & _).
  rewrite (Hall1 Stdin) in S. repeat split; auto.
  rewrite (is_closed_app b1 b2 p _ C), (Hall1 p). reflexivity.
Qed.

Lemma Close_is_idempotent_witness :
  exists b2,
    Close sample_host closed_sample = Ret b2 /\
    stdin b2 = stdin closed_sample /\
    canceled b2 = true /\ canceled closed_sample = true /\
    (forall p, is_closed b2 p = true /\ is_closed closed_sample p = true) /\
    caller b2 = caller closed_sample /\
    stdout_l b2 = stdout_l closed_sample /\
    stderr_l b2 = stderr_l closed_sample.
Proof.
  apply (Close_is_idempotent sample_host "/w" []
           [Call_Run "sleep 1"; Ev StdoutLoop; Ev StderrLoop]
           (pending_session "sleep 1") closed_sample).
  - apply Ret_session. vm_compute; reflexivity.
  - apply Ret_session. vm_compute; reflexivity.
Defined.

(** X4.  After [Close], whatever happens next, no listener reads again:
    a read returns no data any more, a listener at the head of its loop
    leaves it, and a call of [Run] that is still pending can return with
    the cancellation error. *)
Theorem listeners_stop_after_Close (h : Host) (dir : string) (env : list string)
    (acts acts2 : list action) (b b1 b2 : Bash) (chunk : string) :
  exec h (new_Bash dir env) acts = Ret b ->
  Close h b = Ret b1 ->
  exec h b1 acts2 = Ret b2 ->
  step b2 (StdoutRead chunk) = NotEnabled /\
  step b2 (StderrRead chunk) = NotEnabled /\
  (so_pc (stdout_l b2) = AtLoop ->
   exists b3, step b2 StdoutLoop = Ret b3 /\ so_pc (stdout_l b3) = Exited) /\
  (se_pc (stderr_l b2) = AtLoop ->
   exists b3, step b2 StderrLoop = Ret b3 /\ se_pc (stderr_l b3) = Exited) /\
  (caller b2 = InSelect ->
   exists b3, step b2 CtxDone = Ret b3 /\
              caller b3 = Returned "" (Some context_Canceled)).
Proof.
  intros Hreach Hclose Hexec.
  assert (Hp2 : protocol b2).
  { eapply exec_protocol; eauto. eapply Close_protocol; eauto.
    eapply session_protocol_aux; eauto. }
  assert (Hi : closed_inv b2)
    by (eapply exec_closed_inv; eauto using Close_closed_inv).
  destruct Hi as [_ Hc2].
  destruct (protocol_canceled _ Hp2 Hc2) as [_ Hall].
  unfold step. rewrite (Hall Stdout), (Hall Stderr), Hc2. cbn [negb andb].
  repeat split.
  - destruct (so_pc (stdout_l b2)); reflexivity.
  - destruct (se_pc (stderr_l b2)); reflexivity.
  - intros ->. eexists. split; reflexivity.
  - intros ->. eexists. split; reflexivity.
  - intros ->. eexists. split; reflexivity.
Qed.

Lemma listeners_stop_after_Close_witness :
  step closed_sample_later (StdoutRead ("late" +++ nl)) = NotEnabled /\
  step closed_sample_later (StderrRead ("late" +++ nl)) = NotEnabled /\
  (so_pc (stdout_l closed_sample_later) = AtLoop ->
   exists b3, step closed_sample_later StdoutLoop = Ret b3 /\
              so_pc (stdout_l b3) = Exited) /\
  (se_pc (stderr_l closed_sample_later) = AtLoop ->
   exists b3, step closed_sample_later StderrLoop = Ret b3 /\
              se_pc (stderr_l b3) = Exited) /\
  (caller closed_sample_later = InSelect ->
   exists b3, step closed_sample_later CtxDone = Ret b3 /\
              caller b3 = Returned "" (Some context_Canceled)).
Proof.
  apply (listeners_stop_after_Close sample_host "/w" []
           [Call_Run "sleep 1"; Ev StdoutLoop; Ev StderrLoop]
           [Ev CtxDone; Call_Run "echo hi"; Call_Close]
           (pending_session "sleep 1") closed_sample closed_sample_later
           ("late" +++ nl)).
  - apply Ret_session. vm_compute; reflexivity.
  - apply Ret_session. vm_compute; reflexivity.
  - apply Ret_session. vm_compute; reflexivity.
Defined.

(** *** What a call returns *)

Lemma step_result_inv (b b1 : Bash) (e : event) :
  step b e = Ret b1 -> result_inv b -> result_inv b1.
Proof.
  unfold result_inv. intros H Hi o err.
  destruct e; step_cases H;
    cbn [caller set_caller set_stdout set_stderr set_exited];
    try (apply Hi); intros Hr; try discriminate Hr;
    injection Hr as <- _; reflexivity.
Qed.

Lemma refused_result (b b1 : Bash) (o : string) (e : error) :
  refused b b1 -> caller b1 = Returned o (Some e) -> o = "".
Proof.
  intros (_ & _ & [(_ & C) | [(_ & _ & C) | (_ & _ & _ & C)]]) Hc;
    rewrite C in Hc; injection Hc as <- _; reflexivity.
Qed.

Lemma perform_result_inv (h : Host) (b b1 : Bash) (a : action) :
  perform h b a = Ret b1 -> result_inv b -> result_inv b1.
Proof.
  intros H Hi. destruct a as [s| |e|s]; cbn [perform] in H.
  - assert (Hr : Run_enter h b s = Ret b1)
      by (destruct (caller b); try discriminate; exact H).
    clear H.
    destruct (once_Do_init h b) as [b0| |] eqn:E;
      try (unfold Run_enter in Hr; rewrite E in Hr; discriminate Hr).
    rewrite (Run_enter_after_init _ _ _ s E) in Hr.
    destruct (once_Do_init_fields _ _ _ E) as (Ho & _).
    destruct (Run_enter_fields _ _ _ _ Ho Hr) as (_ & [Hc | (_ & _ & _ & _ & C & _)]);
      intros o err Hc'; [eapply refused_result; eauto|].
    rewrite C in Hc'. discriminate Hc'.
  - destruct (once_Do_init h b) as [b0| |] eqn:E;
      try (unfold Close in H; rewrite E in H; discriminate H).
    rewrite (Close_after_init _ _ _ E) in H.
    destruct (once_Do_init_fields _ _ _ E) as (Ho & Hc0 & _).
    destruct (Close_fields _ _ _ Ho H) as (_ & _ & _ & _ & _ & _ & C & _).
    intros o err Hc. apply (Hi o err). congruence.
  - eapply step_result_inv; eauto.
  - assert (Hr : Run_enter_exiting h b s = Ret b1)
      by (destruct (caller b); try discriminate; exact H).
    clear H.
    destruct (once_Do_init h b) as [b0| |] eqn:E;
      try (unfold Run_enter_exiting in Hr; rewrite E in Hr; discriminate Hr).
    rewrite (Run_enter_exiting_after_init _ _ _ s E) in Hr.
    destruct (once_Do_init_fields _ _ _ E) as (Ho & _).
    destruct (Run_enter_exiting_fields _ _ _ _ Ho Hr)
      as (_ & [Hc | (_ & _ & _ & _ & C & _)]);
      intros o err Hc'; [eapply refused_result; eauto|].
    rewrite C in Hc'. injection Hc' as <- _; reflexivity.
Qed.

Lemma exec_invariant (P : Bash -> Prop) (h : Host) :
  (forall b b1 a, perform h b a = Ret b1 -> P b -> P b1) ->
  forall acts b b1, exec h b acts = Ret b1 -> P b -> P b1.
Proof.
  intros Hstep. induction acts as [|a acts IH]; intros b b1 H Hi; cbn [exec] in H.
  - injection H as <-. exact Hi.
  - destruct (perform h b a) as [b2| |] eqn:E; cbn [bind] in H; try discriminate.
    eauto.
Qed.

(** X5.  Whatever is done with a session, a call of [Run] that returned
    an error returned the empty output with it: output and error never
    come together. *)
Theorem error_comes_with_empty_output (h : Host) (dir : string) (env : list string)
    (acts : list action) (b : Bash) (o : string) (e : error) :
  exec h (new_Bash dir env) acts = Ret b ->
  caller b = Returned o (Some e) ->
  caller b = Returned "" (Some e).
Proof.
  intros H Hc.
  assert (Hi : result_inv b).
  { eapply (exec_invariant result_inv); eauto using perform_result_inv.
    intros o' e' Hc'. discriminate Hc'. }
  now rewrite Hc, (Hi o e Hc).
Qed.

Lemma error_comes_with_empty_output_witness :
  caller failed_returned = Returned "" (Some (errors_New "command has failed")).
Proof.
  apply (error_comes_with_empty_output sample_host "/w" []
           [Call_Run "false"; Ev StdoutLoop; Ev StderrLoop;
            Ev (StdoutRead ("FAILED" +++ nl)); Ev StdoutSend]
           failed_returned "" (errors_New "command has failed")).
  - apply Ret_session. vm_compute; reflexivity.
  - vm_compute; reflexivity.
Defined.

(** *** The buffer of [stdoutHandler] *)

Lemma len_substring (s : string) (n m : nat) :
  n + m <= len s -> len (substring n m s) = m.
Proof.
  unfold len. revert n m. induction s as [|c s IH]; intros n m H; cbn [String.length] in H.
  - destruct n, m; cbn [substring String.length]; lia.
  - destruct n as [|n]; destruct m as [|m]; cbn [substring String.length];
      try reflexivity.
    + rewrite IH; lia.
    + apply IH; lia.
    + apply IH; lia.
Qed.

Lemma len_Repeat (c : ascii) (n : nat) : len (Repeat c n) = n.
Proof. unfold len. induction n; cbn [Repeat String.length]; congruence. Qed.

Lemma bufferSize_pos : 0 < bufferSize.
Proof. apply Nat.ltb_lt. vm_compute. reflexivity. Qed.

Lemma slice_to_write_at (buf chunk : string) (at_ : nat) :
  at_ <= len buf ->
  slice_to (write_at buf at_ chunk) (at_ + len chunk) = slice_to buf at_ +++ chunk.
Proof.
  intros H. unfold write_at.
  assert (E : len (slice_to buf at_) = at_)
    by (unfold slice_to; apply len_substring; lia).
  rewrite <- E at 3. rewrite <- len_append, <- append_assoc.
  apply slice_to_append.
Qed.

Lemma len_write_at (buf chunk : string) (at_ : nat) :
  at_ + len chunk <= len buf -> len (write_at buf at_ chunk) = len buf.
Proof.
  intros H. unfold write_at, slice_to, slice_from.
  rewrite !len_append, !len_substring; lia.
Qed.

Lemma stdout_on_read_AtLoop (l : stdoutState) (chunk : string) :
  so_pc (stdout_on_read l chunk) = AtLoop ->
  buffer (stdout_on_read l chunk) = write_at (buffer l) (cur l) chunk /\
  cur (stdout_on_read l chunk) =
    (if cur l + len chunk =? bufferSize then 0 else cur l + len chunk).
Proof.
  unfold stdout_on_read.
  destruct (HasSuffix (stdout_r l chunk) "OK"); cbn [so_pc]; [discriminate|].
  destruct (HasSuffix (stdout_r l chunk) "FAILED"); cbn [so_pc]; [discriminate|].
  cbn [buffer cur]. auto.
Qed.

Lemma stdout_on_read_buffer (l : stdoutState) (chunk : string) :
  buffer (stdout_on_read l chunk) = write_at (buffer l) (cur l) chunk.
Proof.
  unfold stdout_on_read.
  destruct (HasSuffix (stdout_r l chunk) "OK"); [reflexivity|].
  destruct (HasSuffix (stdout_r l chunk) "FAILED"); reflexivity.
Qed.

Lemma stdout_on_read_cur (l : stdoutState) (chunk : string) :
  cur l < bufferSize -> len chunk <= bufferSize - cur l ->
  cur (stdout_on_read l chunk) < bufferSize.
Proof.
  intros Hc Hn. unfold stdout_on_read.
  destruct (HasSuffix (stdout_r l chunk) "OK"); [exact Hc|].
  destruct (HasSuffix (stdout_r l chunk) "FAILED"); [exact Hc|].
  cbn [cur]. destruct (cur l + len chunk =? bufferSize) eqn:E.
  - apply bufferSize_pos.
  - apply Nat.eqb_neq in E. lia.
Qed.

Lemma step_buffer_inv (b b1 : Bash) (e : event) :
  step b e = Ret b1 -> buffer_inv b -> buffer_inv b1.
Proof.
  unfold buffer_inv. intros H Hi.
  destruct e; step_cases H; unfold stdout_after_send;
    repeat match goal with E : so_pc _ = _ |- _ => rewrite E in * end;
    cbn [stdout_l set_stdout set_stderr set_caller set_so_pc so_pc buffer cur set_exited];
    intros Hn;
    try (apply Hi; congruence);
    try (split; [apply Hi; congruence | apply bufferSize_pos]).
  match goal with E : _ && _ = true |- _ =>
    apply andb_true_iff in E as [_ E]; apply Nat.leb_le in E end.
  assert (Hs : NotStarted <> InRead) by discriminate.
  destruct (Hi (not_eq_sym Hs)) as [Hl Hc].
  split.
  - rewrite stdout_on_read_buffer, len_write_at; lia.
  - now apply stdout_on_read_cur.
Qed.

Lemma step_idle_before_init (b b1 : Bash) (e : event) :
  step b e = Ret b1 -> idle_before_init b -> idle_before_init b1.
Proof.
  unfold idle_before_init. intros H Hi.
  destruct (step_frame _ _ _ H) as (Ho & _). rewrite Ho. intros Hf.
  destruct (Hi Hf) as (Hc & Hso & Hse).
  destruct e; unfold step in H; rewrite ?Hc, ?Hso, ?Hse, ?Hf in H; discriminate H.
Qed.

Lemma perform_started (h : Host) (b b1 : Bash) (a : action) :
  perform h b a = Ret b1 ->
  buffer_inv b /\ idle_before_init b -> buffer_inv b1 /\ idle_before_init b1.
Proof.
  intros H [Hb Hi].
  assert (Hcall : forall b0 b2,
            once_Do_init h b = Ret b0 ->
            once b2 = true -> stdout_l b2 = stdout_l b0 ->
            buffer_inv b2 /\ idle_before_init b2).
  { intros b0 b2 E Ho2 Hso. split; [|intros Hf; congruence].
    unfold buffer_inv. rewrite Hso.
    destruct (once_Do_init_fields _ _ _ E) as (_ & _ & _ & _ & Hr).
    destruct (once b) eqn:Eo.
    - subst b0. exact Hb.
    - destruct Hr as (_ & _ & _ & Hcur & Hbuf & _). intros _.
      rewrite Hcur, Hbuf. unfold make_buffer. rewrite len_Repeat.
      split; [reflexivity | apply bufferSize_pos]. }
  destruct a as [s| |e|s]; cbn [perform] in H.
  - assert (Hr : Run_enter h b s = Ret b1)
      by (destruct (caller b); try discriminate; exact H).
    clear H.
    destruct (once_Do_init h b) as [b0| |] eqn:E;
      try (unfold Run_enter in Hr; rewrite E in Hr; discriminate Hr).
    rewrite (Run_enter_after_init _ _ _ s E) in Hr.
    destruct (once_Do_init_fields _ _ _ E) as (Ho & _).
    destruct (Run_enter_fields _ _ _ _ Ho Hr) as ((Ho1 & _ & _ & _ & Hso & _) & _).
    eauto.
  - destruct (once_Do_init h b) as [b0| |] eqn:E;
      try (unfold Close in H; rewrite E in H; discriminate H).
    rewrite (Close_after_init _ _ _ E) in H.
    destruct (once_Do_init_fields _ _ _ E) as (Ho & _).
    destruct (Close_fields _ _ _ Ho H) as (Ho1 & _ & _ & _ & Hso & _).
    eauto.
  - split; [eapply step_buffer_inv | eapply step_idle_before_init]; eauto.
  - assert (Hr : Run_enter_exiting h b s = Ret b1)
      by (destruct (caller b); try discriminate; exact H).
    clear H.
    destruct (once_Do_init h b) as [b0| |] eqn:E;
      try (unfold Run_enter_exiting in Hr; rewrite E in Hr; discriminate Hr).
    rewrite (Run_enter_exiting_after_init _ _ _ s E) in Hr.
    destruct (once_Do_init_fields _ _ _ E) as (Ho & _).
    destruct (Run_enter_exiting_fields _ _ _ _ Ho Hr)
      as ((Ho1 & _ & _ & _ & Hso & _) & _).
    eauto.
Qed.

Lemma session_started (h : Host) (dir : string) (env : list string)
    (acts : list action) (b : Bash) :
  exec h (new_Bash dir env) acts = Ret b -> buffer_inv b /\ idle_before_init b.
Proof.
  intros H.
  eapply (exec_invariant (fun b => buffer_inv b /\ idle_before_init b));
    eauto using perform_started.
  split.
  - intros Hn. now contradiction Hn.
  - intros _. repeat split.
Qed.

(** X6.  [stdoutHandler] accumulates across reads.  When a read brings
    no sentinel and does not fill the buffer, the listener goes back to
    its loop with the bytes appended to what it held, and the next read is
    judged on everything accumulated: what was held, this chunk and the
    next, trimmed. *)
Theorem stdout_accumulates (h : Host) (dir : string) (env : list string)
    (acts : list action) (b b1 : Bash) (chunk1 chunk2 : string) :
  exec h (new_Bash dir env) acts = Ret b ->
  step b (StdoutRead chunk1) = Ret b1 ->
  so_pc (stdout_l b1) = AtLoop ->
  cur (stdout_l b) + len chunk1 <> bufferSize ->
  stdout_r (stdout_l b) chunk1 = TrimSpace (pending (stdout_l b) +++ chunk1) /\
  pending (stdout_l b1) = pending (stdout_l b) +++ chunk1 /\
  stdout_r (stdout_l b1) chunk2 =
    TrimSpace (pending (stdout_l b) +++ chunk1 +++ chunk2).
Proof.
  intros Hreach Hstep Hpc Hfull.
  destruct (session_started _ _ _ _ _ Hreach) as [Hb _].
  unfold step in Hstep.
  destruct (so_pc (stdout_l b)) eqn:Ep; try discriminate.
  destruct (negb (is_closed b Stdout) && _) eqn:Eg; try discriminate.
  injection Hstep as <-. cbn [stdout_l set_stdout set_exited] in *.
  apply andb_true_iff in Eg as [_ Eg]. apply Nat.leb_le in Eg.
  assert (Hs : so_pc (stdout_l b) <> NotStarted) by congruence.
  destruct (Hb Hs) as [Hl Hc].
  destruct (stdout_on_read_AtLoop _ _ Hpc) as [Hbuf Hcur].
  apply Nat.eqb_neq in Hfull. rewrite Hfull in Hcur.
  assert (E1 : slice_to (write_at (buffer (stdout_l b)) (cur (stdout_l b)) chunk1)
                 (cur (stdout_l b) + len chunk1) =
               pending (stdout_l b) +++ chunk1)
    by (apply slice_to_write_at; lia).
  split; [|split].
  - unfold stdout_r. now rewrite E1.
  - unfold pending at 1. now rewrite Hbuf, Hcur.
  - unfold stdout_r. rewrite Hbuf, Hcur, slice_to_write_at.
    + now rewrite E1, append_assoc.
    + rewrite len_write_at; lia.
Qed.

Lemma stdout_accumulates_witness :
  stdout_r (stdout_l (pending_session "printf hello; echo")) "hel" =
    TrimSpace (pending (stdout_l (pending_session "printf hello; echo")) +++ "hel") /\
  pending (stdout_l accumulate_sample) =
    pending (stdout_l (pending_session "printf hello; echo")) +++ "hel" /\
  stdout_r (stdout_l accumulate_sample) ("lo" +++ nl +++ "OK" +++ nl) =
    TrimSpace (pending (stdout_l (pending_session "printf hello; echo")) +++
               "hel" +++ "lo" +++ nl +++ "OK" +++ nl).
Proof.
  apply (stdout_accumulates sample_host "/w" []
           [Call_Run "printf hello; echo"; Ev StdoutLoop; Ev StderrLoop]
           (pending_session "printf hello; echo") accumulate_sample
           "hel" ("lo" +++ nl +++ "OK" +++ nl)).
  - apply Ret_session. vm_compute; reflexivity.
  - apply Ret_session. vm_compute; reflexivity.
  - vm_compute; reflexivity.
  - apply Nat.eqb_neq. vm_compute; reflexivity.
Defined.

(** *** From one call to the next *)

Lemma live_session (h : Host) (dir : string) (env : list string)
    (acts : list action) (b : Bash) :
  exec h (new_Bash dir env) acts = Ret b ->
  caller b <> Idle \/ se_pc (stderr_l b) <> NotStarted ->
  canceled b = false ->
  once b = true /\ is_closed b Stdin = false.
Proof.
  intros Hreach Hused Hc.
  destruct (session_started _ _ _ _ _ Hreach) as [_ Hi].
  pose proof (session_protocol_aux _ _ _ _ _ Hreach) as Hp.
  assert (Ho : once b = true).
  { destruct (once b) eqn:E; [reflexivity|].
    destruct (Hi E) as (H1 & _ & H3). destruct Hused; congruence. }
  split; [exact Ho|].
  destruct (protocol_initialised _ Hp Ho) as (_ & [(Hn & _) | (_ & Ht & _)]);
    [|congruence].
  unfold is_closed. now rewrite Hn.
Qed.

(** A call of [Run] on a started session that was not closed: accepted
    while the process runs, refused with the error of the write once it
    has exited. *)
Lemma Run_enter_live (h : Host) (b : Bash) (s : string) :
  once b = true -> canceled b = false -> is_closed b Stdin = false ->
  exists b1,
    Run_enter h b s = Ret b1 /\
    stdout_l b1 = stdout_l b /\ stderr_l b1 = stderr_l b /\
    if exited b
    then caller b1 = Returned "" (Some syscall_EPIPE) /\ stdin b1 = stdin b
    else caller b1 = InSelect /\ stdin b1 = stdin b ++ run_writes s.
Proof.
  intros Ho Hcan Hcl.
  assert (Hex : exists b1, Run_enter h b s = Ret b1).
  { unfold Run_enter, once_Do_init. rewrite Ho. cbn [bind]. rewrite Hcan.
    unfold stdin_Write.
    repeat match goal with
           | |- context [if ?c then _ else _] => destruct c
           end; eexists; reflexivity. }
  destruct Hex as [b1 H1]. exists b1. split; [exact H1|].
  destruct (Run_enter_fields _ _ _ _ Ho H1)
    as ((_ & _ & _ & _ & Hso & Hse) & Hcase).
  split; [exact Hso|]. split; [exact Hse|].
  destruct Hcase as [(S & _ & [(Hx & _) | [(_ & Hx & _) | (_ & _ & Hx & C)]])
                    | (_ & _ & Hx & S & C & _)];
    try congruence; rewrite Hx; auto.
Qed.

(** X7.  A failed command is not fatal to the session.  When the select
    has taken "command has failed", the listener is back at its loop with
    an empty accumulator, and the next call of [Run] is judged by the
    process alone: while it runs (and does not exit during the call) the
    call is accepted, writes its command and the probe and waits, so the
    next command is judged on its own output; once it has exited (as after
    [exit 1]) the call writes nothing and returns the error of its first
    write. *)
Theorem session_survives_failed_command (h : Host) (dir : string) (env : list string)
    (acts : list action) (b b1 : Bash) (s : string) :
  exec h (new_Bash dir env) acts = Ret b ->
  caller b = InSelect ->
  so_pc (stdout_l b) = SendErr ->
  canceled b = false ->
  step b StdoutSend = Ret b1 ->
  caller b1 = Returned "" (Some (errors_New "command has failed")) /\
  exists b2,
    perform h b1 (Call_Run s) = Ret b2 /\
    so_pc (stdout_l b2) = AtLoop /\
    pending (stdout_l b2) = "" /\
    if exited b
    then caller b2 = Returned "" (Some syscall_EPIPE) /\ stdin b2 = stdin b
    else caller b2 = InSelect /\ stdin b2 = stdin b ++ run_writes s.
Proof.
  intros Hreach Hc Hp Hcan Hstep.
  destruct (live_session _ _ _ _ _ Hreach) as [Ho Hcl]; auto.
  { left. congruence. }
  destruct (step_frame _ _ _ Hstep) as (Ho1 & Hc1 & _ & Hcl1 & Hs1).
  pose proof (step_exited _ _ _ Hstep) as Hx1. cbn beta iota in Hx1.
  unfold step in Hstep. rewrite Hc, Hp in Hstep. injection Hstep as <-.
  cbn [caller set_caller]. split; [reflexivity|].
  cbn [perform caller set_caller].
  set (b1 := set_caller _ _) in *.
  destruct (Run_enter_live h b1 s) as (b2 & H2 & Hso & _ & Hcase).
  { congruence. }
  { congruence. }
  { unfold is_closed in *. now rewrite Hcl1. }
  exists b2. split; [exact H2|].
  rewrite Hso, Hx1, Hs1 in *. subst b1. cbn [stdout_l set_caller set_stdout].
  unfold stdout_after_send, pending. rewrite Hp. cbn [so_pc buffer cur].
  split; [reflexivity|]. split; [apply slice_to_0 | exact Hcase].
Qed.

Lemma session_survives_failed_command_witness :
  (caller (session (step failing_sample StdoutSend)) =
     Returned "" (Some (errors_New "command has failed")) /\
   exists b2,
     perform sample_host (session (step failing_sample StdoutSend))
       (Call_Run "true") = Ret b2 /\
     so_pc (stdout_l b2) = AtLoop /\
     pending (stdout_l b2) = "" /\
     caller b2 = InSelect /\
     stdin b2 = stdin failing_sample ++ run_writes "true") /\
  (caller (session (step exited_failing_sample StdoutSend)) =
     Returned "" (Some (errors_New "command has failed")) /\
   exists b2,
     perform sample_host (session (step exited_failing_sample StdoutSend))
       (Call_Run "true") = Ret b2 /\
     so_pc (stdout_l b2) = AtLoop /\
     pending (stdout_l b2) = "" /\
     caller b2 = Returned "" (Some syscall_EPIPE) /\
     stdin b2 = stdin exited_failing_sample).
Proof.
  assert (E1 : exited failing_sample = false) by (vm_compute; reflexivity).
  assert (E2 : exited exited_failing_sample = true) by (vm_compute; reflexivity).
  split.
  - pose proof (session_survives_failed_command sample_host "/w" []
           [Call_Run "false"; Ev StdoutLoop; Ev StderrLoop;
            Ev (StdoutRead ("FAILED" +++ nl))]
           failing_sample (session (step failing_sample StdoutSend)) "true") as H.
    rewrite E1 in H. apply H.
    + apply Ret_session. vm_compute; reflexivity.
    + vm_compute; reflexivity.
    + vm_compute; reflexivity.
    + vm_compute; reflexivity.
    + apply Ret_session. vm_compute; reflexivity.
  - pose proof (session_survives_failed_command sample_host "/w" []
           [Call_Run "echo FAILED; exit 0"; Ev StdoutLoop; Ev StderrLoop;
            Ev (StdoutRead ("FAILED" +++ nl)); Ev ProcessExit]
           exited_failing_sample
           (session (step exited_failing_sample StdoutSend)) "true") as H.
    rewrite E2 in H. apply H.
    + apply Ret_session. vm_compute; reflexivity.
    + vm_compute; reflexivity.
    + vm_compute; reflexivity.
    + vm_compute; reflexivity.
    + apply Ret_session. vm_compute; reflexivity.
Defined.

(** X8.  An error that [stderrHandler] could not deliver to the call
    during which it was read stays on offer: the listener is still blocked
    in its send when the call returns (the output won the race).  While the
    process runs (and does not exit during the call), the next call of
    [Run], whatever its command, is accepted and its select can take that
    old error at once; once the process has exited, the next call returns
    the error of its write instead and the old error stays on offer. *)
Theorem stale_error_reaches_next_call (h : Host) (dir : string) (env : list string)
    (acts : list action) (b : Bash) (s : string) :
  exec h (new_Bash dir env) acts = Ret b ->
  se_pc (stderr_l b) = SendErr ->
  caller b <> InSelect ->
  canceled b = false ->
  exists b1,
    perform h b (Call_Run s) = Ret b1 /\
    if exited b
    then caller b1 = Returned "" (Some syscall_EPIPE) /\
         se_pc (stderr_l b1) = SendErr /\ se_msg (stderr_l b1) = se_msg (stderr_l b)
    else caller b1 = InSelect /\
         exists b2, step b1 StderrSend = Ret b2 /\
                    caller b2 = Returned "" (Some (se_msg (stderr_l b))).
Proof.
  intros Hreach Hp Hn Hcan.
  destruct (live_session _ _ _ _ _ Hreach) as [Ho Hcl]; auto.
  { right. congruence. }
  assert (Hperf : perform h b (Call_Run s) = Run_enter h b s)
    by (cbn [perform]; destruct (caller b); congruence).
  destruct (Run_enter_live h b s Ho Hcan Hcl) as (b1 & H1 & _ & Hse & Hcase).
  exists b1. rewrite Hperf. split; [exact H1|].
  destruct (exited b).
  - destruct Hcase as [C _]. rewrite Hse. auto.
  - destruct Hcase as [C _]. split; [exact C|].
    unfold step. rewrite C, Hse, Hp. eexists. split; reflexivity.
Qed.

Lemma stale_error_reaches_next_call_witness :
  exists b1,
    perform sample_host stale_sample (Call_Run "true") = Ret b1 /\
    caller b1 = InSelect /\
    exists b2, step b1 StderrSend = Ret b2 /\
               caller b2 = Returned "" (Some (se_msg (stderr_l stale_sample))).
Proof.
  assert (E : exited stale_sample = false) by (vm_compute; reflexivity).
  pose proof (stale_error_reaches_next_call sample_host "/w" []
           [Call_Run "warn"; Ev StderrLoop; Ev StdoutLoop;
            Ev (StderrRead ("warning" +++ nl));
            Ev (StdoutRead ("OK" +++ nl)); Ev StdoutSend]
           stale_sample "true") as H.
  rewrite E in H. apply H.
  - apply Ret_session. vm_compute; reflexivity.
  - vm_compute; reflexivity.
  - intros H0. vm_compute in H0. discriminate H0.
  - vm_compute; reflexivity.
Defined.

Lemma stale_sample_message :
  se_msg (stderr_l stale_sample) = errors_New ("warning" +++ nl) /\
  caller stale_sample = Returned "" None.
Proof. split; vm_compute; reflexivity. Qed.
End Shell.

(** ** Package [generator]: suites and the scripts rendered from them *)
Module Generator.
Import GoStrings.

Section Suites.

(** *** What the package takes from elsewhere

    [filepath.Abs] (its error is dropped by every caller) and
    [filepath.Dir]; the type [Test] with its two renderers and its zero
    value [new(Test)]; the embedded [Dependency] and the [Dependencies]
    lists with their renderers; the two regular expressions [nameRegex] and
    [spaceRegex] applied through [ReplaceAllString]; and the title caser
    [cases.Title(language.Und, cases.NoLower).String]. *)
Variable filepath_Abs : string -> string.
Variable filepath_Dir : string -> string.
Variable Test : Type.
Variable Test_String : Test -> string.
Variable Test_BashString : Test -> bool -> string.
Variable new_Test : Test.
Variable Dependency : Type.
Variable Dependencies : Type.
Variable Dependencies_String : Dependencies -> string.
Variable Dependencies_FieldsString : Dependencies -> string.
Variable Dependencies_SetupString : Dependencies -> string.
Variable nameRegex_ReplaceAllString : string -> string -> string.
Variable spaceRegex_ReplaceAllString : string -> string -> string.
Variable cases_Title : string -> string.

(** [Body]: the command blocks of a method, in order. *)
Definition Body : Type := list string.

(** [Suite].  A suite points to its parents and to its children; the
    functions below follow the pointers in one direction only, and the
    chain of ancestors is finite, so the suites a suite points to are
    held by value. *)
#[warnings="-register-all"]
Inductive Suite : Type := mkSuite {
  Dir : string;
  Location : string;
  Dependency_ : Dependency;
  Cleanup : Body;
  Run : Body;
  Tests : list Test;
  Children : list Suite;
  Parents : list Suite;
  Deps : Dependencies;
  DepsToSetup : Dependencies
}.

(** [s.Name()], the method the suite has from another file of the
    package. *)
Variable Name : Suite -> string.

(** [path.Split]: the path is cut right after its last slash. *)
Fixpoint path_Split (p : string) : string * string :=
  match p with
  | EmptyString => (EmptyString, EmptyString)
  | String c rest =>
      let (dir, file) := path_Split rest in
      match dir with
      | EmptyString =>
          if Ascii.eqb c "/"%char then (String c EmptyString, file)
          else (EmptyString, String c file)
      | _ => (String c dir, file)
      end
  end.

(** The lines of one block in [Body.String]: each between backquotes, with
    [+"\n"+] between two lines. *)
Fixpoint Body_String_lines (lines : list string) (sb : Builder) : Builder :=
  match lines with
  | [] => sb
  | line :: rest =>
      let sb := WriteString sb "`" in
      let sb := WriteString sb line in
      let sb := WriteString sb "`" in
      let sb :=
        match rest with
        | [] => sb
        | _ => WriteString sb ("+" +++ dq +++ bslash +++ "n" +++ dq +++ "+")
        end in
      Body_String_lines rest sb
  end.

Fixpoint Body_String_blocks (b : Body) (sb : Builder) : Builder :=
  match b with
  | [] => sb
  | block :: rest =>
      let sb := WriteString sb "r.Run(" in
      let sb := Body_String_lines (Split block (byte_of 10)) sb in
      let sb := WriteString sb (")" +++ nl) in
      Body_String_blocks rest sb
  end.

(** [Body.String] *)
Definition Body_String (b : Body) : string :=
  if length b =? 0 then "" else Body_String_blocks b "".

(** The guard written after a line when [withExit] is set. *)
Definition exit_guard : string := tab +++ "[ $? = 0 ] || exit 1" +++ nl.

(** The loop of [Body.BashString] over the blocks. *)
Fixpoint Body_BashString_blocks (withExit retry : bool) (b : Body) (sb : Builder)
  : Builder :=
  match b with
  | [] => sb
  | block :: rest =>
      let sb := WriteString sb tab in
      let sb :=
        if retry then
          let sb := WriteString sb "try_run '" in
          let sb := WriteString sb (ReplaceAll block "'"%char ("'" +++ bslash +++ "''")) in
          WriteString sb "'"
        else WriteString sb block in
      let sb := WriteString sb nl in
      let sb := if withExit then WriteString sb exit_guard else sb in
      Body_BashString_blocks withExit retry rest sb
  end.

(** [Body.BashString] *)
Definition Body_BashString (b : Body) (withExit retry : bool) : string :=
  if length b =? 0 then tab +++ ":" +++ nl
  else Body_BashString_blocks withExit retry b "".

(** [fmt.Sprintf("echo 'setup suite %s'", filepath.Dir(s.Location))] *)
Definition setup_marker (s : Suite) : string :=
  "echo 'setup suite " +++ filepath_Dir (Location s) +++ "'".

(** [fmt.Sprintf("echo 'cleanup suite %s'", filepath.Dir(s.Location))] *)
Definition cleanup_marker (s : Suite) : string :=
  "echo 'cleanup suite " +++ filepath_Dir (Location s) +++ "'".

(** ["cd " + absDir] *)
Definition cd_command (s : Suite) : string := "cd " +++ filepath_Abs (Dir s).

(** [getDependenciesSetup] *)
Fixpoint getDependenciesSetup (s : Suite) : list string :=
  let setup :=
    fold_left (fun setup p => setup ++ getDependenciesSetup p) (Parents s) [] in
  let setup := setup ++ [setup_marker s; cd_command s] in
  setup ++ Run s.

(** [getDependenciesCleanup] *)
Definition getDependenciesCleanup (s : Suite) : list string :=
  let cleanup := [cleanup_marker s; cd_command s] in
  let cleanup := cleanup ++ Cleanup s in
  fold_left (fun cleanup p => cleanup ++ getDependenciesSetup p) (Parents s) cleanup.

Definition set_Run (s : Suite) (run : Body) : Suite :=
  {| Dir := Dir s; Location := Location s; Dependency_ := Dependency_ s;
     Cleanup := Cleanup s; Run := run; Tests := Tests s;
     Children := Children s; Parents := Parents s;
     Deps := Deps s; DepsToSetup := DepsToSetup s |}.

Definition set_Cleanup (s : Suite) (cleanup : Body) : Suite :=
  {| Dir := Dir s; Location := Location s; Dependency_ := Dependency_ s;
     Cleanup := cleanup; Run := Run s; Tests := Tests s;
     Children := Children s; Parents := Parents s;
     Deps := Deps s; DepsToSetup := DepsToSetup s |}.

Definition set_Tests (s : Suite) (tests : list Test) : Suite :=
  {| Dir := Dir s; Location := Location s; Dependency_ := Dependency_ s;
     Cleanup := Cleanup s; Run := Run s; Tests := tests;
     Children := Children s; Parents := Parents s;
     Deps := Deps s; DepsToSetup := DepsToSetup s |}.

(** The first loop of [Suite.BashString]. *)
Definition setupDependencies (s : Suite) : Body :=
  fold_left (fun acc p => acc ++ getDependenciesSetup p) (Parents s) [].

(** The second loop of [Suite.BashString]. *)
Definition cleanupDependencies (s : Suite) : Body :=
  fold_left (fun acc p => acc ++ getDependenciesCleanup p) (Parents s) [].

(** The four assignments of [Suite.BashString] to [s.Run] and
    [s.Cleanup]: the suite as the method leaves it. *)
Definition prefixed (s : Suite) : Suite :=
  let s := set_Run s ([cd_command s] ++ Run s) in
  let s := set_Run s ([setup_marker s] ++ Run s) in
  let s := set_Cleanup s ([cd_command s] ++ Cleanup s) in
  set_Cleanup s ([cleanup_marker s] ++ Cleanup s).

(** [retryTemplate] *)
Definition retryTemplate : string :=
  nl +++
  "function try_run() {" +++ nl +++
  "    command=" +++ dq +++ "$1" +++ dq +++ nl +++
  "    attempt=0" +++ nl +++
  "    retry_interval=1" +++ nl +++
  "    timeout=" +++ dq +++ "${RETRY_TIMEOUT_SECONDS:-300}" +++ dq +++ nl +++
  "    start_time=" +++ dq +++ "$(date -u +%s)" +++ dq +++ nl +++
  "    echo " +++ dq +++ "===== next command =====" +++ dq +++ nl +++
  "    echo " +++ dq +++ "$command" +++ dq +++ nl +++
  "    while true; do" +++ nl +++
  "        attempt=$((attempt + 1))" +++ nl +++
  "        echo " +++ dq +++ "===== attempt $attempt =====" +++ dq +++ nl +++
  "        echo " +++ dq +++ "current time $(date +" +++ dq +++
    "%Y-%m-%dT%H:%M:%S%z" +++ dq +++ ")" +++ dq +++ nl +++
  "        source /dev/stdin <<<" +++ dq +++ "$(echo " +++ dq +++ "${command}" +++
    dq +++ ")" +++ dq +++ nl +++
  "        retval=$?" +++ nl +++
  tab +++ tab +++ "echo" +++ nl +++
  "        echo " +++ dq +++ "retval = $retval" +++ dq +++ nl +++
  "        current_time=" +++ dq +++ "$(date -u +%s)" +++ dq +++ nl +++
  "        elapsed=$((current_time-start_time))" +++ nl +++
  "        echo " +++ dq +++ "elapsed = $elapsed" +++ dq +++ nl +++
  "        [ $retval = 0 ] && echo " +++ dq +++ "===== command success =====" +++ dq +++
    " && return 0" +++ nl +++
  "        [ " +++ dq +++ "$elapsed" +++ dq +++ " -gt " +++ dq +++ "$timeout" +++ dq +++
    " ] && echo " +++ dq +++ "===== command timed out =====" +++ dq +++
    " && return 1" +++ nl +++
  "        sleep $retry_interval" +++ nl +++
  "    done" +++ nl +++
  "}" +++ nl.

(** The value [Suite.BashString] hands to the template. *)
Record bashSuiteData : Type := {
  bd_Dir : string;
  SetupDependencies : string;
  SetupMain : string;
  CleanupDependencies : string;
  CleanupMain : string;
  RetryFunction : string
}.

(** [bashSuiteTemplate] executed on a value: the text of the template with
    each action replaced by its field. *)
Definition execute_bashSuiteTemplate (d : bashSuiteData) : string :=
  nl +++
  "#!/usr/bin/env bash" +++ nl +++
  RetryFunction d +++ nl +++
  "setup_dependencies() {" +++ nl +++
  SetupDependencies d +++ "}" +++ nl +++
  nl +++
  "setup_main() {" +++ nl +++
  SetupMain d +++ "}" +++ nl +++
  nl +++
  "setup() {" +++ nl +++
  tab +++ "setup_dependencies && setup_main" +++ nl +++
  "}" +++ nl +++
  nl +++
  "cleanup_dependencies() {" +++ nl +++
  CleanupDependencies d +++ tab +++ "# cleanup shouldn't report errors" +++ nl +++
  tab +++ "true" +++ nl +++
  "}" +++ nl +++
  nl +++
  "cleanup_main() {" +++ nl +++
  CleanupMain d +++ tab +++ "# cleanup shouldn't report errors" +++ nl +++
  tab +++ "true" +++ nl +++
  "}" +++ nl +++
  nl +++
  "cleanup() {" +++ nl +++
  tab +++ "cleanup_main" +++ nl +++
  tab +++ "cleanup_dependencies" +++ nl +++
  "}" +++ nl.

(** The template value of [Suite.BashString], computed from the suite as
    the method found it. *)
Definition bashData (s : Suite) (retry : bool) : bashSuiteData :=
  let setupDeps := setupDependencies s in
  let cleanupDeps := cleanupDependencies s in
  let absDir := filepath_Abs (Dir s) in
  let s1 := prefixed s in
  {| bd_Dir := absDir;
     SetupDependencies := Body_BashString setupDeps true retry;
     SetupMain := Body_BashString (Run s1) true retry;
     CleanupDependencies := Body_BashString cleanupDeps false false;
     CleanupMain := Body_BashString (Cleanup s1) false false;
     RetryFunction := if retry then retryTemplate else "" |}.

(** The loop over [s.Tests] that writes each test's script. *)
Fixpoint write_tests_bash (tests : list Test) (retry : bool) (sb : Builder) : Builder :=
  match tests with
  | [] => sb
  | test :: rest => write_tests_bash rest retry (WriteString sb (Test_BashString test retry))
  end.

(** [Suite.BashString]: the script, and the suite as the call leaves it
    (the method has a pointer receiver and assigns to its fields). *)
Definition Suite_BashString (s : Suite) (retry : bool) : string * Suite :=
  let d := bashData s retry in
  let s1 := prefixed s in
  let result := execute_bashSuiteTemplate d in
  let result := write_tests_bash (Tests s1) retry result in
  let result := WriteString result (nl +++ nl) in
  let result := WriteString result (dq +++ "$1" +++ dq +++ nl) in
  (result, s1).

(** [includedSuiteTemplate] executed on the list of (Title, Name). *)
Fixpoint execute_range_Suites (suites : list (string * string)) (sb : Builder) : Builder :=
  match suites with
  | [] => sb
  | (title, name) :: rest =>
      execute_range_Suites rest
        (sb +++ nl +++ tab +++ tab +++ "s.Run(" +++ dq +++ title +++ dq +++
         ", func() {" +++ nl +++
         tab +++ tab +++ tab +++ "suite.Run(s.T(), &s." +++ name +++ "Suite)" +++ nl +++
         tab +++ tab +++ "})" +++ nl +++ tab)
  end.

Definition execute_includedSuiteTemplate (suites : list (string * string)) : string :=
  execute_range_Suites suites (nl +++ tab) +++ nl.

(** [generateChildrenTesting] *)
Definition generateChildrenTesting (s : Suite) : string :=
  if length (Children s) =? 0 then ""
  else
    let suites :=
      fold_left
        (fun suites child =>
           let title := snd (path_Split (Dir child)) in
           let title := cases_Title (nameRegex_ReplaceAllString title "_") in
           suites ++ [(title, Name child)])
        (Children s) [] in
    execute_includedSuiteTemplate suites.

(** The value [Suite.String] hands to the template. *)
Record suiteData : Type := {
  sd_Dir : string;
  sd_Name : string;
  sd_Cleanup : string;
  sd_Run : string;
  sd_Fields : string;
  sd_Imports : string;
  sd_Setup : string;
  sd_TestIncludedSuites : string
}.

(** A string is true for the template when it is not empty. *)
Definition truth (s : string) : bool := negb (len s =? 0).

(** [suiteTemplate] executed on a value. *)
Definition execute_suiteTemplate (d : suiteData) : string :=
  "// Code generated by gotestmd DO NOT EDIT." +++ nl +++
  "package " +++ sd_Name d +++ nl +++
  nl +++
  "import(" +++ nl +++
  tab +++ sd_Imports d +++ nl +++
  ")" +++ nl +++
  nl +++
  "type Suite struct {" +++ nl +++
  tab +++ sd_Fields d +++ nl +++
  "}" +++ nl +++
  nl +++
  "func (s *Suite) SetupSuite() {" +++ nl +++
  tab +++ sd_Setup d +++ nl +++
  tab +++
  (if truth (sd_Run d) || truth (sd_Cleanup d)
   then nl +++ tab +++ "r := s.Runner(" +++ dq +++ sd_Dir d +++ dq +++ ")" +++ nl +++ tab
   else "") +++ nl +++
  tab +++ sd_Cleanup d +++ nl +++
  tab +++ sd_Run d +++ nl +++
  nl +++
  (if truth (sd_TestIncludedSuites d)
   then nl +++ tab +++ "s.RunIncludedSuites()" +++ nl +++
        "}" +++ nl +++
        nl +++
        "func (s *Suite) RunIncludedSuites() {" +++ nl +++
        tab +++ sd_TestIncludedSuites d +++ nl
   else "") +++ nl +++
  "}" +++ nl.

Fixpoint write_tests (tests : list Test) (sb : Builder) : Builder :=
  match tests with
  | [] => sb
  | test :: rest => write_tests rest (WriteString sb (Test_String test))
  end.

(** [Suite.String]: the Go source of the suite, and the suite as the call
    leaves it. *)
Definition Suite_String (s : Suite) : string * Suite :=
  let cleanup := Body_String (Cleanup s) in
  let cleanup :=
    if 0 <? len cleanup
    then tab +++ "s.T().Cleanup(func() {" +++ nl +++
         tab +++ tab +++ cleanup +++ nl +++
         tab +++ "})"
    else cleanup in
  let result :=
    execute_suiteTemplate
      {| sd_Dir := Dir s;
         sd_Name := Name s;
         sd_Cleanup := cleanup;
         sd_Run := Body_String (Run s);
         sd_Imports := Dependencies_String (Deps s);
         sd_Fields := Dependencies_FieldsString (Deps s);
         sd_Setup := Dependencies_SetupString (DepsToSetup s);
         sd_TestIncludedSuites := generateChildrenTesting s |} in
  let s1 :=
    if length (Tests s) =? 0 then set_Tests s (Tests s ++ [new_Test]) else s in
  let result := write_tests (Tests s1) result in
  (spaceRegex_ReplaceAllString (TrimSpace result) nl, s1).

(** *** The earlier revision of the file

    The repository also holds an earlier revision of the same file.
    [Body.String], [Suite.String], [generateChildrenTesting] and
    [getDependenciesSetup] are the same in both (the title caser apart).
    The earlier [Body.BashString] knows no retry: it joins the lines of a
    block with [&&] and ends the block with [|| exit]; and the earlier
    cleanup sequences have no directory change. *)

Variable Test_BashString_old : Test -> string.

(** [for i := 1; i < len(lines); i++] *)
Fixpoint join_lines_old (lines : list string) (sb : Builder) : Builder :=
  match lines with
  | [] => sb
  | line :: rest =>
      let sb := WriteString sb (" &&" +++ nl +++ tab) in
      let sb := WriteString sb line in
      join_lines_old rest sb
  end.

(** The loop of the earlier [Body.BashString]; [lines[0]] exists, for
    [strings.Split] returns at least one piece. *)
Fixpoint Body_BashString_blocks_old (withExit : bool) (b : Body) (sb : Builder)
  : Builder :=
  match b with
  | [] => sb
  | block :: rest =>
      let lines := Split block (byte_of 10) in
      let sb := WriteString sb tab in
      let sb := WriteString sb (hd "" lines) in
      let sb := join_lines_old (tl lines) sb in
      let sb := if withExit then WriteString sb " || exit" else sb in
      let sb := WriteString sb nl in
      Body_BashString_blocks_old withExit rest sb
  end.

Definition Body_BashString_old (b : Body) (withExit : bool) : string :=
  if length b =? 0 then tab +++ ":" +++ nl
  else Body_BashString_blocks_old withExit b "".

(** The earlier [getDependenciesCleanup] *)
Definition getDependenciesCleanup_old (s : Suite) : list string :=
  let cleanup := [cleanup_marker s] in
  let cleanup := cleanup ++ Cleanup s in
  fold_left (fun cleanup p => cleanup ++ getDependenciesSetup p) (Parents s) cleanup.

Definition cleanupDependencies_old (s : Suite) : Body :=
  fold_left (fun acc p => acc ++ getDependenciesCleanup_old p) (Parents s) [].

(** The three assignments of the earlier [Suite.BashString]. *)
Definition prefixed_old (s : Suite) : Suite :=
  let s := set_Run s ([cd_command s] ++ Run s) in
  let s := set_Run s ([setup_marker s] ++ Run s) in
  set_Cleanup s ([cleanup_marker s] ++ Cleanup s).

(** The earlier [bashSuiteTemplate] executed on a value. *)
Definition execute_bashSuiteTemplate_old (d : bashSuiteData) : string :=
  nl +++
  "#! /bin/bash" +++ nl +++
  nl +++
  "setup_dependencies() {" +++ nl +++
  SetupDependencies d +++ "}" +++ nl +++
  nl +++
  "setup_main() {" +++ nl +++
  SetupMain d +++ "}" +++ nl +++
  nl +++
  "setup() {" +++ nl +++
  tab +++ "setup_dependencies && setup_main" +++ nl +++
  "}" +++ nl +++
  nl +++
  "cleanup_dependencies() {" +++ nl +++
  CleanupDependencies d +++ "}" +++ nl +++
  nl +++
  "cleanup_main() {" +++ nl +++
  CleanupMain d +++ "}" +++ nl +++
  nl +++
  "cleanup() {" +++ nl +++
  tab +++ "cleanup_main && cleanup_dependencies" +++ nl +++
  "}" +++ nl.

Definition bashData_old (s : Suite) : bashSuiteData :=
  let setupDeps := setupDependencies s in
  let cleanupDeps := cleanupDependencies_old s in
  let absDir := filepath_Abs (Dir s) in
  let s1 := prefixed_old s in
  {| bd_Dir := absDir;
     SetupDependencies := Body_BashString_old setupDeps true;
     SetupMain := Body_BashString_old (Run s1) true;
     CleanupDependencies := Body_BashString_old cleanupDeps false;
     CleanupMain := Body_BashString_old (Cleanup s1) false;
     RetryFunction := "" |}.

Fixpoint write_tests_bash_old (tests : list Test) (sb : Builder) : Builder :=
  match tests with
  | [] => sb
  | test :: rest => write_tests_bash_old rest (WriteString sb (Test_BashString_old test))
  end.

(** The earlier [Suite.BashString] *)
Definition Suite_BashString_old (s : Suite) : string * Suite :=
  let d := bashData_old s in
  let s1 := prefixed_old s in
  let result := execute_bashSuiteTemplate_old d in
  let result := write_tests_bash_old (Tests s1) result in
  let result := WriteString result (nl +++ nl) in
  let result := WriteString result (dq +++ "$1" +++ dq +++ nl) in
  (result, s1).

(** The commands of [setup_dependencies] followed by those of
    [setup_main], the order in which [setup] runs them. *)
Definition composedSetup (s : Suite) : list string :=
  setupDependencies s ++ Run (prefixed s).

(** The commands of [cleanup_main] followed by those of
    [cleanup_dependencies], the order in which [cleanup] runs them. *)
Definition composedCleanup (s : Suite) : list string :=
  Cleanup (prefixed s) ++ cleanupDependencies s.

(** One block as [Body.BashString] writes it. *)
Definition bash_line (withExit retry : bool) (block : string) : string :=
  tab +++
  (if retry
   then "try_run '" +++ ReplaceAll block "'"%char ("'" +++ bslash +++ "''") +++ "'"
   else block) +++
  nl +++ (if withExit then exit_guard else "").

Fixpoint bash_lines (withExit retry : bool) (b : Body) : string :=
  match b with
  | [] => ""
  | block :: rest => bash_line withExit retry block +++ bash_lines withExit retry rest
  end.

(** The blocks one after the other, each on its line and nothing else. *)
Fixpoint plain_lines (b : Body) : string :=
  match b with
  | [] => ""
  | block :: rest => tab +++ block +++ nl +++ plain_lines rest
  end.

(** [needle] occurs in [s]. *)
Fixpoint contains (s needle : string) : bool :=
  prefix needle s ||
  match s with
  | EmptyString => false
  | String _ rest => contains rest needle
  end.

(** The byte [c] occurs in [w]. *)
Fixpoint has_byte (w : string) (c : ascii) : bool :=
  match w with
  | EmptyString => false
  | String x rest => Ascii.eqb x c || has_byte rest c
  end.

(** *** Linearisation *)

Lemma fold_left_app_flat_map {A B : Type} (f : A -> list B) (l : list A) (acc : list B) :
  fold_left (fun acc p => acc ++ f p) l acc = acc ++ flat_map f l.
Proof.
  revert acc. induction l as [|x l IH]; intros acc; cbn [fold_left flat_map].
  - now rewrite app_nil_r.
  - rewrite IH. now rewrite app_assoc.
Qed.

Lemma getDependenciesSetup_eq (s : Suite) :
  getDependenciesSetup s =
  flat_map getDependenciesSetup (Parents s) ++ [setup_marker s; cd_command s] ++ Run s.
Proof.
  destruct s. cbn [getDependenciesSetup Parents Run].
  rewrite fold_left_app_flat_map. cbn [app]. now rewrite <- app_assoc.
Qed.

Lemma getDependenciesCleanup_eq (s : Suite) :
  getDependenciesCleanup s =
  [cleanup_marker s; cd_command s] ++ Cleanup s ++
  flat_map getDependenciesSetup (Parents s).
Proof.
  unfold getDependenciesCleanup. rewrite fold_left_app_flat_map.
  now rewrite <- app_assoc.
Qed.

Lemma prefixed_eq (s : Suite) :
  prefixed s =
  set_Cleanup (set_Run s (setup_marker s :: cd_command s :: Run s))
              (cleanup_marker s :: cd_command s :: Cleanup s).
Proof. reflexivity. Qed.


(** C3, as the code has it.  The commands [cleanup] runs are the suite's
    own marker, its directory change and its [Cleanup], then each parent's
    contribution in the order of [Parents]; a parent contributes its
    marker, its directory change and its [Cleanup], and then, for its own
    parents, their setup expansions ([getDependenciesSetup]).  The script's
    two functions render the two halves, without guards. *)
Theorem cleanup_linearisation (s : Suite) (retry : bool) :
  composedCleanup s =
    [cleanup_marker s; cd_command s] ++ Cleanup s ++
    flat_map getDependenciesCleanup (Parents s) /\
  (forall p, getDependenciesCleanup p =
             [cleanup_marker p; cd_command p] ++ Cleanup p ++
             flat_map getDependenciesSetup (Parents p)) /\
  CleanupMain (bashData s retry) =
    Body_BashString ([cleanup_marker s; cd_command s] ++ Cleanup s) false false /\
  CleanupDependencies (bashData s retry) =
    Body_BashString (flat_map getDependenciesCleanup (Parents s)) false false.
Proof.
  unfold composedCleanup, bashData, cleanupDependencies.
  cbn [CleanupMain CleanupDependencies].
  rewrite fold_left_app_flat_map, prefixed_eq. cbn [Cleanup set_Cleanup app].
  repeat split. apply getDependenciesCleanup_eq.
Qed.

(** *** Rendering of a body *)

Lemma Body_BashString_blocks_eq (withExit retry : bool) (b : Body) (sb : Builder) :
  Body_BashString_blocks withExit retry b sb = sb +++ bash_lines withExit retry b.
Proof.
  revert sb. induction b as [|block rest IH]; intros sb;
    cbn [Body_BashString_blocks bash_lines].
  - now rewrite append_nil_r.
  - rewrite IH. unfold WriteString, bash_line.
    destruct retry, withExit; unfold WriteString;
      now rewrite ?append_assoc, ?append_nil_r.
Qed.

Lemma Body_BashString_cons (withExit retry : bool) (block : string) (rest : Body) :
  Body_BashString (block :: rest) withExit retry =
  bash_lines withExit retry (block :: rest).
Proof.
  unfold Body_BashString. cbn [length Nat.eqb].
  now rewrite Body_BashString_blocks_eq.
Qed.

Lemma bash_lines_plain (b : Body) : bash_lines false false b = plain_lines b.
Proof.
  induction b as [|block rest IH]; cbn [bash_lines plain_lines]; [reflexivity|].
  unfold bash_line. rewrite IH. now rewrite !append_assoc.
Qed.

Lemma bash_lines_app (withExit retry : bool) (a b : Body) :
  bash_lines withExit retry (a ++ b) =
  bash_lines withExit retry a +++ bash_lines withExit retry b.
Proof.
  induction a as [|x a IH]; cbn [app bash_lines]; [reflexivity|].
  now rewrite IH, append_assoc.
Qed.

Lemma Body_BashString_plain (b : Body) :
  Body_BashString b false false =
  if length b =? 0 then tab +++ ":" +++ nl else plain_lines b.
Proof.
  destruct b as [|block rest]; [reflexivity|].
  rewrite Body_BashString_cons. cbn [length Nat.eqb]. apply bash_lines_plain.
Qed.

(** *** Occurrences of a word in rendered lines *)

Lemma prefix_app_sep (w a b : string) (c : ascii) :
  has_byte w c = false -> prefix w (a +++ String c b) = prefix w a.
Proof.
  revert w. induction a as [|y a IH]; intros w Hw.
  - destruct w as [|x w]; [reflexivity|].
    cbn [String.append prefix]. cbn [has_byte] in Hw.
    apply orb_false_iff in Hw as [Hx _].
    destruct (ascii_dec x c) as [->|]; [|reflexivity].
    now rewrite Ascii.eqb_refl in Hx.
  - destruct w as [|x w]; [reflexivity|].
    cbn [String.append prefix]. cbn [has_byte] in Hw.
    apply orb_false_iff in Hw as [_ Hw].
    destruct (ascii_dec x y); [now apply IH | reflexivity].
Qed.

Lemma contains_nil (w : string) : w <> "" -> contains "" w = false.
Proof. destruct w; [congruence | reflexivity]. Qed.

Lemma contains_app_sep (w a b : string) (c : ascii) :
  has_byte w c = false -> w <> "" ->
  contains (a +++ String c b) w = contains a w || contains b w.
Proof.
  intros Hc Hw. induction a as [|y a IH].
  - rewrite (contains_nil w Hw). cbn [String.append contains orb].
    change (String c b) with ("" +++ String c b) at 1.
    rewrite (prefix_app_sep w "" b c Hc).
    destruct w; [congruence | reflexivity].
  - cbn [String.append contains].
    change (String y (a +++ String c b)) with (String y a +++ String c b).
    rewrite (prefix_app_sep w (String y a) b c Hc), IH.
    now rewrite orb_assoc.
Qed.

Lemma contains_plain_lines (w : string) (b : Body) :
  has_byte w (byte_of 9) = false -> has_byte w (byte_of 10) = false -> w <> "" ->
  contains (plain_lines b) w = existsb (fun block => contains block w) b.
Proof.
  intros Ht Hn Hw. induction b as [|block rest IH]; cbn [plain_lines existsb].
  - now apply contains_nil.
  - change (tab +++ block +++ nl +++ plain_lines rest)
      with ("" +++ String (byte_of 9) (block +++ String (byte_of 10) (plain_lines rest))).
    rewrite (contains_app_sep w "" _ _ Ht Hw), (contains_nil w Hw).
    cbn [orb]. rewrite (contains_app_sep w block _ _ Hn Hw). now rewrite IH.
Qed.

Lemma prefix_app_l (w a b : string) :
  prefix w a = true -> prefix w (a +++ b) = true.
Proof.
  revert w. induction a as [|y a IH]; intros w H.
  - destruct w; [|discriminate H]. destruct b; reflexivity.
  - destruct w as [|x w]; [reflexivity|].
    cbn [String.append prefix] in *.
    destruct (ascii_dec x y); [now apply IH | discriminate H].
Qed.

Lemma contains_app_l (w a b : string) :
  contains a w = true -> contains (a +++ b) w = true.
Proof.
  induction a as [|y a IH]; intros H.
  - cbn [contains] in H. rewrite orb_false_r in H.
    destruct w; [|discriminate H]. destruct b; reflexivity.
  - cbn [String.append contains] in *.
    apply orb_true_iff in H as [H | H].
    + change (String y (a +++ b)) with (String y a +++ b).
      now rewrite (prefix_app_l _ _ b H).
    + rewrite (IH H). apply orb_true_r.
Qed.

Lemma contains_app_r (w a b : string) :
  contains b w = true -> contains (a +++ b) w = true.
Proof.
  intros H. induction a as [|y a IH]; cbn [String.append contains].
  - exact H.
  - rewrite IH. apply orb_true_r.
Qed.

Lemma contains_cleanup_body (b : Body) :
  contains (Body_BashString b false false) "exit 1" =
  existsb (fun block => contains block "exit 1") b.
Proof.
  rewrite Body_BashString_plain. destruct b as [|block rest]; [reflexivity|].
  cbn [length Nat.eqb].
  apply contains_plain_lines; [reflexivity | reflexivity | discriminate].
Qed.

(** C9.  Whatever [retry] is, the bodies of [cleanup_main] and
    [cleanup_dependencies] are rendered with [withExit = false]: each
    command on its line, followed by the next command and by no guard.
    [exit 1] occurs in them only where a command block itself holds it.
    The same function renders [setup_main] with the guard. *)
Theorem cleanup_has_no_exit_guard (s : Suite) (retry : bool) :
  CleanupMain (bashData s retry) = plain_lines (Cleanup (prefixed s)) /\
  CleanupDependencies (bashData s retry) =
    (if length (cleanupDependencies s) =? 0 then tab +++ ":" +++ nl
     else plain_lines (cleanupDependencies s)) /\
  contains (CleanupMain (bashData s retry)) "exit 1" =
    existsb (fun block => contains block "exit 1") (Cleanup (prefixed s)) /\
  contains (CleanupDependencies (bashData s retry)) "exit 1" =
    existsb (fun block => contains block "exit 1") (cleanupDependencies s) /\
  SetupMain (bashData s retry) = bash_lines true retry (Run (prefixed s)) /\
  contains (SetupMain (bashData s retry)) "exit 1" = true.
Proof.
  unfold bashData. cbn [CleanupMain CleanupDependencies SetupMain].
  rewrite !contains_cleanup_body, !Body_BashString_plain.
  rewrite prefixed_eq. cbn [Cleanup Run set_Cleanup set_Run length Nat.eqb].
  repeat split.
  - apply Body_BashString_cons.
  - rewrite Body_BashString_cons. cbn [bash_lines].
    apply contains_app_l. unfold bash_line.
    do 3 apply contains_app_r. reflexivity.
Qed.

(** *** What the two renderers leave behind *)

Lemma write_tests_bash_eq (tests : list Test) (retry : bool) (sb : Builder) :
  write_tests_bash tests retry sb = sb +++ write_tests_bash tests retry "".
Proof.
  revert sb. induction tests as [|t tests IH]; intros sb; cbn [write_tests_bash].
  - now rewrite append_nil_r.
  - rewrite IH, (IH (WriteString "" _)). unfold WriteString.
    cbn [String.append]. now rewrite append_assoc.
Qed.

Lemma len_Suite_BashString (s : Suite) (retry : bool) :
  len (fst (Suite_BashString s retry)) =
  len (execute_bashSuiteTemplate (bashData s retry)) +
  len (write_tests_bash (Tests s) retry "") +
  len ((nl +++ nl) +++ dq +++ "$1" +++ dq +++ nl).
Proof.
  unfold Suite_BashString. cbn [fst]. unfold WriteString.
  rewrite write_tests_bash_eq, prefixed_eq. cbn [Tests set_Cleanup set_Run].
  rewrite !len_append. lia.
Qed.

Lemma len_bash_line_pos (withExit retry : bool) (block : string) :
  0 < len (bash_line withExit retry block).
Proof. unfold bash_line. rewrite len_append. cbn [len tab String.length]. lia. Qed.

Lemma markers_prefixed (s : Suite) :
  setup_marker (prefixed s) = setup_marker s /\
  cleanup_marker (prefixed s) = cleanup_marker s /\
  cd_command (prefixed s) = cd_command s /\
  setupDependencies (prefixed s) = setupDependencies s /\
  cleanupDependencies (prefixed s) = cleanupDependencies s.
Proof. repeat split. Qed.

Lemma bashData_prefixed (s : Suite) (retry : bool) :
  SetupDependencies (bashData (prefixed s) retry) = SetupDependencies (bashData s retry) /\
  CleanupDependencies (bashData (prefixed s) retry) = CleanupDependencies (bashData s retry) /\
  RetryFunction (bashData (prefixed s) retry) = RetryFunction (bashData s retry) /\
  bd_Dir (bashData (prefixed s) retry) = bd_Dir (bashData s retry) /\
  SetupMain (bashData (prefixed s) retry) =
    bash_lines true retry [setup_marker s; cd_command s] +++ SetupMain (bashData s retry) /\
  CleanupMain (bashData (prefixed s) retry) =
    plain_lines [cleanup_marker s; cd_command s] +++ CleanupMain (bashData s retry).
Proof.
  destruct (markers_prefixed s) as (M1 & M2 & M3 & M4 & M5).
  unfold bashData.
  cbn [SetupDependencies CleanupDependencies RetryFunction bd_Dir SetupMain CleanupMain].
  rewrite M4, M5. rewrite (prefixed_eq (prefixed s)).
  cbn [Run Cleanup set_Cleanup set_Run]. rewrite M1, M2, M3.
  rewrite (prefixed_eq s). cbn [Run Cleanup set_Cleanup set_Run].
  repeat split.
  - rewrite !Body_BashString_cons.
    change (setup_marker s :: cd_command s :: setup_marker s :: cd_command s :: Run s)
      with ([setup_marker s; cd_command s] ++ setup_marker s :: cd_command s :: Run s).
    apply bash_lines_app.
  - rewrite !Body_BashString_cons, !bash_lines_plain.
    cbn [plain_lines]. now rewrite !append_assoc, ?append_nil_r.
Qed.

(** C4, as the code has it.  A call of [BashString] leaves the suite with
    the marker and the directory change in front of its [Run] and of its
    [Cleanup], and nothing else changed.  A second call on the same suite
    renders those lists and prefixes them again: the dependencies, the
    retry function and the tests come out as before, the bodies of
    [setup_main] and [cleanup_main] come out with the two lines once more in
    front, and the second script is not the first. *)
Theorem BashString_twice (s : Suite) (retry : bool) :
  let first := Suite_BashString s retry in
  let second := Suite_BashString (snd first) retry in
  snd first =
    set_Cleanup (set_Run s (setup_marker s :: cd_command s :: Run s))
                (cleanup_marker s :: cd_command s :: Cleanup s) /\
  SetupDependencies (bashData (snd first) retry) = SetupDependencies (bashData s retry) /\
  CleanupDependencies (bashData (snd first) retry) = CleanupDependencies (bashData s retry) /\
  RetryFunction (bashData (snd first) retry) = RetryFunction (bashData s retry) /\
  Tests (snd first) = Tests s /\
  SetupMain (bashData (snd first) retry) =
    bash_lines true retry [setup_marker s; cd_command s] +++ SetupMain (bashData s retry) /\
  CleanupMain (bashData (snd first) retry) =
    plain_lines [cleanup_marker s; cd_command s] +++ CleanupMain (bashData s retry) /\
  fst second <> fst first.
Proof.
  cbv zeta.
  assert (E : snd (Suite_BashString s retry) = prefixed s) by reflexivity.
  rewrite E.
  destruct (bashData_prefixed s retry) as (H1 & H2 & H3 & H4 & H5 & H6).
  repeat split; try assumption.
  intros Heq. apply (f_equal len) in Heq.
  rewrite !len_Suite_BashString in Heq.
  unfold execute_bashSuiteTemplate in Heq.
  rewrite H1, H2, H3, H5, H6 in Heq.
  assert (Ht : Tests (prefixed s) = Tests s) by reflexivity.
  rewrite Ht in Heq. rewrite !len_append in Heq.
  cbn [bash_lines] in Heq. rewrite !len_append in Heq.
  pose proof (len_bash_line_pos true retry (setup_marker s)).
  lia.
Qed.

(** C10.  [String] leaves the suite as it found it when the suite has
    tests, and with one test more, the zero [Test], when it has none. *)
Theorem String_appends_empty_test (s : Suite) :
  snd (Suite_String s) =
    match Tests s with
    | [] => set_Tests s [new_Test]
    | _ :: _ => s
    end /\
  Tests (snd (Suite_String s)) =
    match Tests s with
    | [] => [new_Test]
    | _ :: _ => Tests s
    end.
Proof.
  unfold Suite_String. cbn [snd].
  destruct (Tests s) as [|t ts] eqn:E; cbn [length Nat.eqb app Tests set_Tests]; auto.
Qed.

(** *** The earlier revision *)

Lemma join_lines_old_eq (lines : list string) (sb : Builder) :
  join_lines_old lines sb = sb +++ join_lines_old lines "".
Proof.
  revert sb. induction lines as [|line rest IH]; intros sb; cbn [join_lines_old].
  - now rewrite append_nil_r.
  - rewrite IH, (IH (WriteString _ _)). unfold WriteString.
    cbn [String.append]. now rewrite !append_assoc.
Qed.

(** One block as the earlier [Body.BashString] writes it. *)
Lemma Body_BashString_blocks_old_eq (withExit : bool) (b : Body) (sb : Builder) :
  Body_BashString_blocks_old withExit b sb =
  sb +++ Body_BashString_blocks_old withExit b "".
Proof.
  revert sb. induction b as [|block rest IH]; intros sb;
    cbn [Body_BashString_blocks_old].
  - now rewrite append_nil_r.
  - rewrite IH. symmetry. rewrite IH. symmetry.
    rewrite (join_lines_old_eq _ (WriteString (WriteString sb tab) _)).
    rewrite (join_lines_old_eq _ (WriteString (WriteString "" tab) _)).
    unfold WriteString. cbn ["+++"].
    destruct withExit; now rewrite !append_assoc.
Qed.

Lemma len_Body_BashString_old_cons (withExit : bool) (block : string) (rest : Body) :
  len (Body_BashString_blocks_old withExit rest "") <
  len (Body_BashString_blocks_old withExit (block :: rest) "").
Proof.
  cbn [Body_BashString_blocks_old].
  set (sb := WriteString _ nl).
  rewrite (Body_BashString_blocks_old_eq withExit rest sb), len_append.
  assert (0 < len sb); [|lia].
  subst sb. unfold WriteString at 1. rewrite len_append.
  cbn [len nl String.length]. lia.
Qed.

Lemma write_tests_bash_old_eq (tests : list Test) (sb : Builder) :
  write_tests_bash_old tests sb = sb +++ write_tests_bash_old tests "".
Proof.
  revert sb. induction tests as [|t tests IH]; intros sb; cbn [write_tests_bash_old].
  - now rewrite append_nil_r.
  - rewrite IH, (IH (WriteString "" _)). unfold WriteString.
    cbn [String.append]. now rewrite append_assoc.
Qed.

(** X19.  In the earlier revision the cleanup sequence is the marker, the
    [Cleanup] body and the parents' contributions, with no directory
    change. *)
Lemma cleanup_linearisation_old (s : Suite) :
  Cleanup (prefixed_old s) ++ cleanupDependencies_old s =
    [cleanup_marker s] ++ Cleanup s ++
    flat_map getDependenciesCleanup_old (Parents s) /\
  (forall p, getDependenciesCleanup_old p =
             [cleanup_marker p] ++ Cleanup p ++
             flat_map getDependenciesSetup (Parents p)).
Proof.
  split.
  - unfold cleanupDependencies_old. rewrite fold_left_app_flat_map. reflexivity.
  - intros p. unfold getDependenciesCleanup_old.
    rewrite fold_left_app_flat_map. now rewrite <- app_assoc.
Qed.

(** X20.  The earlier [BashString] rewrites the suite as well, and its second
    script is not its first. *)
Lemma BashString_old_twice (s : Suite) :
  let first := Suite_BashString_old s in
  let second := Suite_BashString_old (snd first) in
  snd first =
    set_Cleanup (set_Run s (setup_marker s :: cd_command s :: Run s))
                (cleanup_marker s :: Cleanup s) /\
  fst second <> fst first.
Proof.
  cbv zeta. split; [reflexivity|].
  intros Heq. apply (f_equal len) in Heq.
  unfold Suite_BashString_old in Heq. cbn [fst snd] in Heq.
  unfold WriteString in Heq.
  rewrite (write_tests_bash_old_eq _ (execute_bashSuiteTemplate_old (bashData_old s))) in Heq.
  rewrite (write_tests_bash_old_eq _ (execute_bashSuiteTemplate_old _)) in Heq.
  assert (Ht : Tests (prefixed_old (prefixed_old s)) = Tests (prefixed_old s))
    by reflexivity.
  rewrite Ht in Heq.
  unfold execute_bashSuiteTemplate_old, bashData_old in Heq.
  cbn [SetupDependencies SetupMain CleanupDependencies CleanupMain] in Heq.
  assert (E1 : setupDependencies (prefixed_old s) = setupDependencies s) by reflexivity.
  assert (E2 : cleanupDependencies_old (prefixed_old s) = cleanupDependencies_old s)
    by reflexivity.
  rewrite E1, E2 in Heq.
  assert (R2 : Run (prefixed_old (prefixed_old s)) =
               setup_marker s :: cd_command s :: Run (prefixed_old s)) by reflexivity.
  assert (R1 : Run (prefixed_old s) = setup_marker s :: cd_command s :: Run s)
    by reflexivity.
  assert (C2 : Cleanup (prefixed_old (prefixed_old s)) =
               cleanup_marker s :: Cleanup (prefixed_old s)) by reflexivity.
  assert (C1 : Cleanup (prefixed_old s) = cleanup_marker s :: Cleanup s)
    by reflexivity.
  rewrite R2, C2 in Heq. rewrite R1, C1 in Heq.
  unfold Body_BashString_old in Heq. cbn [length Nat.eqb] in Heq.
  rewrite !len_append in Heq.
  pose proof (len_Body_BashString_old_cons true (setup_marker s)
                (cd_command s :: setup_marker s :: cd_command s :: Run s)).
  pose proof (len_Body_BashString_old_cons true (cd_command s)
                (setup_marker s :: cd_command s :: Run s)).
  pose proof (len_Body_BashString_old_cons false (cleanup_marker s)
                (cleanup_marker s :: Cleanup s)).
  lia.
Qed.


(** ** Further properties of the generator *)

(** [a] is a parent of [s], or a parent of a parent, and so on. *)
Inductive ancestor : Suite -> Suite -> Prop :=
| ancestor_parent (a s : Suite) :
    In a (Parents s) -> ancestor a s
| ancestor_step (a p s : Suite) :
    In p (Parents s) -> ancestor a p -> ancestor a s.

(** How the shell reads a word made of single-quoted parts and escaped
    quotes: between two quotes every byte stands for itself; outside
    them, a backslash followed by a quote is a quote.  [None] when the
    word is not of that form. *)
Fixpoint sh_unquote (inside : bool) (w : string) : option string :=
  match w with
  | EmptyString => if inside then None else Some EmptyString
  | String c rest =>
      if inside then
        if Ascii.eqb c "'"%char then sh_unquote false rest
        else option_map (String c) (sh_unquote true rest)
      else if Ascii.eqb c "'"%char then sh_unquote true rest
      else
        match rest with
        | String c1 rest1 =>
            if Ascii.eqb c (byte_of 92) && Ascii.eqb c1 "'"%char
            then option_map (String c1) (sh_unquote false rest1)
            else None
        | EmptyString => None
        end
  end.

(** The word [Body.BashString] passes to [try_run] for a block. *)
Definition try_run_argument (block : string) : string :=
  "'" +++ ReplaceAll block "'"%char ("'" +++ bslash +++ "''") +++ "'".

(** One line of a block between backquotes, as [Body.String] writes it. *)
Definition backquoted (line : string) : string := "`" +++ line +++ "`".

(** The text [Body.String] writes between the lines of a block: a plus, a
    quoted backslash-n, a plus. *)
Definition plus_newline_plus : string := "+" +++ dq +++ bslash +++ "n" +++ dq +++ "+".

(** One child as [includedSuiteTemplate] renders it. *)
Definition child_entry (child : Suite) : string :=
  nl +++ tab +++ tab +++ "s.Run(" +++ dq +++
  cases_Title (nameRegex_ReplaceAllString (snd (path_Split (Dir child))) "_") +++
  dq +++ ", func() {" +++ nl +++
  tab +++ tab +++ tab +++ "suite.Run(s.T(), &s." +++ Name child +++ "Suite)" +++ nl +++
  tab +++ tab +++ "})" +++ nl +++ tab.

(** One block as [Body.String] writes it: a call of [r.Run] on the lines
    of the block. *)
Definition run_call (block : string) : string :=
  "r.Run(" +++
  String.concat plus_newline_plus (map backquoted (Split block (byte_of 10))) +++
  ")" +++ nl.

Fixpoint run_calls (b : Body) : string :=
  match b with
  | [] => ""
  | block :: rest => run_call block +++ run_calls rest
  end.

Fixpoint child_entries (children : list Suite) : string :=
  match children with
  | [] => ""
  | child :: rest => child_entry child +++ child_entries rest
  end.

(** One block as the earlier [Body.BashString] writes it: its lines
    chained by [&&], each on a line of its own, and one [|| exit] at the
    end. *)
Definition old_block (withExit : bool) (block : string) : string :=
  tab +++
  String.concat (" &&" +++ nl +++ tab) (Split block (byte_of 10)) +++
  (if withExit then " || exit" else "") +++ nl.

Fixpoint old_blocks (withExit : bool) (b : Body) : string :=
  match b with
  | [] => ""
  | block :: rest => old_block withExit block +++ old_blocks withExit rest
  end.

(** *** Ancestors *)

Lemma flat_map_split {A B : Type} (f : A -> list B) (x : A) (l : list A) :
  In x l -> exists pre post, flat_map f l = pre ++ f x ++ post.
Proof.
  intros H. apply in_split in H as (l1 & l2 & ->).
  exists (flat_map f l1), (flat_map f l2).
  rewrite flat_map_app. reflexivity.
Qed.

(** X9.  The setup expansion of every ancestor of a suite, however far
    up, occurs as one block in the suite's own setup expansion, before the
    suite's marker, directory change and commands. *)
Theorem ancestor_setup_precedes (a s : Suite) :
  ancestor a s ->
  exists pre post,
    getDependenciesSetup s =
    pre ++ getDependenciesSetup a ++ post ++
    [setup_marker s; cd_command s] ++ Run s.
Proof.
  induction 1 as [a s Hin | a p s Hin Hanc IH].
  - destruct (flat_map_split getDependenciesSetup a _ Hin) as (pre & post & E).
    exists pre, post. rewrite (getDependenciesSetup_eq s), E.
    now rewrite <- !app_assoc.
  - destruct (flat_map_split getDependenciesSetup p _ Hin) as (pre & post & E).
    destruct IH as (pre' & post' & E').
    exists (pre ++ pre'), ((post' ++ [setup_marker p; cd_command p] ++ Run p) ++ post).
    rewrite (getDependenciesSetup_eq s), E, E'.
    now rewrite <- !app_assoc.
Qed.

(** X10.  Taken on the same state of the suite, the commands the script
    of [BashString] runs for setup are the sequence [getDependenciesSetup]
    returns.  But [BashString] rewrites [s.Run] and [s.Cleanup]: on the
    suite as the call leaves it, which is the suite its children reach
    through [Parents], [getDependenciesSetup] and [getDependenciesCleanup]
    return the marker and the directory change twice.  So a child rendered
    after its parent runs the parent's marker and directory change twice,
    and what the parent contributes is no longer what its own script
    ran. *)
Theorem setup_before_and_after_BashString (s : Suite) (retry : bool) :
  composedSetup s = getDependenciesSetup s /\
  bash_lines true retry (getDependenciesSetup s) =
    (match Parents s with
     | [] => ""
     | _ :: _ => SetupDependencies (bashData s retry)
     end) +++ SetupMain (bashData s retry) /\
  getDependenciesSetup (snd (Suite_BashString s retry)) =
    flat_map getDependenciesSetup (Parents s) ++
    [setup_marker s; cd_command s; setup_marker s; cd_command s] ++ Run s /\
  getDependenciesCleanup (snd (Suite_BashString s retry)) =
    [cleanup_marker s; cd_command s; cleanup_marker s; cd_command s] ++
    Cleanup s ++ flat_map getDependenciesSetup (Parents s) /\
  getDependenciesSetup (snd (Suite_BashString s retry)) <> composedSetup s /\
  (forall c : Suite,
     Parents c = [snd (Suite_BashString s retry)] ->
     setupDependencies c =
       flat_map getDependenciesSetup (Parents s) ++
       [setup_marker s; cd_command s; setup_marker s; cd_command s] ++ Run s).
Proof.
  assert (E : composedSetup s = getDependenciesSetup s).
  { unfold composedSetup, setupDependencies.
    rewrite fold_left_app_flat_map, (getDependenciesSetup_eq s), prefixed_eq.
    reflexivity. }
  assert (A : getDependenciesSetup (snd (Suite_BashString s retry)) =
              flat_map getDependenciesSetup (Parents s) ++
              [setup_marker s; cd_command s; setup_marker s; cd_command s] ++ Run s).
  { cbn [Suite_BashString snd]. rewrite getDependenciesSetup_eq, prefixed_eq.
    reflexivity. }
  split; [exact E|]. split; [|split; [exact A|split; [|split]]].
  - rewrite <- E. unfold composedSetup, bashData. cbn [SetupDependencies SetupMain].
    rewrite bash_lines_app, prefixed_eq. cbn [Run set_Cleanup set_Run].
    rewrite Body_BashString_cons. f_equal.
    unfold setupDependencies. rewrite fold_left_app_flat_map. cbn [app].
    destruct (Parents s) as [|p ps]; [reflexivity|].
    cbn [flat_map]. rewrite (getDependenciesSetup_eq p).
    destruct (flat_map getDependenciesSetup (Parents p)) as [|x xs];
      cbn [app]; now rewrite Body_BashString_cons.
  - cbn [Suite_BashString snd]. rewrite getDependenciesCleanup_eq, prefixed_eq.
    reflexivity.
  - rewrite A, E, getDependenciesSetup_eq. intros H.
    apply (f_equal (@length string)) in H. rewrite !length_app in H.
    cbn [length] in H. lia.
  - intros c Hc. unfold setupDependencies.
    rewrite fold_left_app_flat_map, Hc. cbn [flat_map app].
    rewrite app_nil_r. exact A.
Qed.

(** X11.  For a suite whose only parent is [B], whose only parent is
    [A], the commands [cleanup] runs are the suite's marker, directory
    change and [Cleanup], then those of [B], and then the setup expansion
    of [A]: the grandparent is set up again, and its [Cleanup] is not
    run. *)
Theorem cleanup_chain (s A B : Suite) :
  Parents s = [B] ->
  Parents B = [A] ->
  composedCleanup s =
    [cleanup_marker s; cd_command s] ++ Cleanup s ++
    [cleanup_marker B; cd_command B] ++ Cleanup B ++
    getDependenciesSetup A.
Proof.
  intros Hs HB. unfold composedCleanup, cleanupDependencies.
  rewrite fold_left_app_flat_map, prefixed_eq, Hs.
  cbn [Cleanup set_Cleanup flat_map app].
  rewrite (getDependenciesCleanup_eq B), HB. cbn [flat_map app].
  now rewrite !app_nil_r.
Qed.

(** *** Empty bodies *)

Lemma getDependenciesSetup_not_nil (s : Suite) : getDependenciesSetup s <> [].
Proof.
  rewrite getDependenciesSetup_eq. intros H.
  apply app_eq_nil in H as [_ H]. discriminate H.
Qed.

(** X12.  The body of [setup_dependencies] and of [cleanup_dependencies]
    is the no-op [:] when the suite has no parents and the rendered
    commands of the parents when it has some; the bodies of [setup_main]
    and [cleanup_main] are never the no-op, for they always hold the marker
    and the directory change. *)
Theorem dependencies_noop_iff_no_parents (s : Suite) (retry : bool) :
  SetupDependencies (bashData s retry) =
    match Parents s with
    | [] => tab +++ ":" +++ nl
    | _ :: _ => bash_lines true retry (setupDependencies s)
    end /\
  CleanupDependencies (bashData s retry) =
    match Parents s with
    | [] => tab +++ ":" +++ nl
    | _ :: _ => plain_lines (cleanupDependencies s)
    end /\
  SetupMain (bashData s retry) =
    bash_lines true retry (setup_marker s :: cd_command s :: Run s) /\
  CleanupMain (bashData s retry) =
    plain_lines (cleanup_marker s :: cd_command s :: Cleanup s).
Proof.
  unfold bashData. cbn [SetupDependencies CleanupDependencies SetupMain CleanupMain].
  rewrite prefixed_eq. cbn [Run Cleanup set_Cleanup set_Run].
  rewrite !Body_BashString_cons, bash_lines_plain.
  unfold setupDependencies, cleanupDependencies.
  rewrite !fold_left_app_flat_map. cbn [app].
  destruct (Parents s) as [|p ps]; [repeat split|].
  cbn [flat_map]. repeat split.
  - pose proof (getDependenciesSetup_not_nil p) as Hn.
    destruct (getDependenciesSetup p) as [|x xs]; [congruence|].
    cbn [app]. apply Body_BashString_cons.
  - rewrite (getDependenciesCleanup_eq p). cbn [app].
    rewrite Body_BashString_cons. apply bash_lines_plain.
Qed.

(** *** [Suite.String] *)

Lemma generateChildrenTesting_set_Tests (s : Suite) (tests : list Test) :
  generateChildrenTesting (set_Tests s tests) = generateChildrenTesting s.
Proof. reflexivity. Qed.

(** X13.  [Suite.String] is idempotent, provided [Name] does not read
    the tests: the zero test the first call appends to a suite without
    tests is the one the first call already rendered, so a second call
    returns the same text and leaves the suite as the first call left
    it. *)
Theorem String_is_idempotent (s : Suite) :
  (forall (s0 : Suite) (tests : list Test), Name (set_Tests s0 tests) = Name s0) ->
  Suite_String (snd (Suite_String s)) = Suite_String s.
Proof.
  intros HName. unfold Suite_String. cbn [snd].
  destruct (Tests s) as [|t ts] eqn:E; cbn [length Nat.eqb app].
  - cbn [Tests Cleanup Run Dir Deps DepsToSetup set_Tests length Nat.eqb].
    rewrite HName, generateChildrenTesting_set_Tests. reflexivity.
  - rewrite ?E. cbn [length Nat.eqb]. rewrite ?E. reflexivity.
Qed.

(** *** [Body.String] *)

Lemma rev_append_app (a acc : string) :
  rev_append a acc = rev_append a "" +++ acc.
Proof.
  revert acc. induction a as [|c a IH]; intros acc; cbn [rev_append].
  - reflexivity.
  - rewrite IH, (IH (String c "")). now rewrite append_assoc.
Qed.

Lemma Split_from_not_nil (s : string) (sep : ascii) (cur : string) :
  Split_from s sep cur <> [].
Proof.
  revert cur. induction s as [|c s IH]; intros cur; cbn [Split_from].
  - discriminate.
  - destruct (Ascii.eqb c sep); [discriminate | apply IH].
Qed.

Lemma concat_cons (sep x : string) (l : list string) :
  l <> [] -> String.concat sep (x :: l) = x +++ sep +++ String.concat sep l.
Proof. destruct l; [congruence | reflexivity]. Qed.

Lemma concat_Split_from (s : string) (sep : ascii) (cur : string) :
  String.concat (String sep "") (Split_from s sep cur) = rev cur +++ s.
Proof.
  revert cur. induction s as [|c s IH]; intros cur; cbn [Split_from].
  - cbn [String.concat]. now rewrite append_nil_r.
  - destruct (Ascii.eqb c sep) eqn:E.
    + apply Ascii.eqb_eq in E. subst c.
      rewrite concat_cons by apply Split_from_not_nil.
      rewrite IH. reflexivity.
    + rewrite IH. unfold rev. cbn [rev_append].
      rewrite (rev_append_app cur (String c "")), append_assoc. reflexivity.
Qed.

Lemma Body_String_lines_eq (lines : list string) (sb : Builder) :
  Body_String_lines lines sb =
  sb +++ String.concat plus_newline_plus (map backquoted lines).
Proof.
  revert sb. induction lines as [|line rest IH]; intros sb;
    cbn [Body_String_lines map].
  - cbn [String.concat]. now rewrite append_nil_r.
  - rewrite IH. unfold WriteString, backquoted.
    destruct rest as [|line2 rest].
    + cbn [map String.concat]. now rewrite !append_assoc, append_nil_r.
    + rewrite concat_cons by discriminate.
      unfold plus_newline_plus, backquoted. now rewrite !append_assoc.
Qed.

Lemma Body_String_blocks_eq (b : Body) (sb : Builder) :
  Body_String_blocks b sb = sb +++ run_calls b.
Proof.
  revert sb. induction b as [|block rest IH]; intros sb;
    cbn [Body_String_blocks run_calls].
  - now rewrite append_nil_r.
  - rewrite IH, Body_String_lines_eq. unfold WriteString, run_call.
    now rewrite !append_assoc.
Qed.

(** X14.  [Body.String] writes one call of [r.Run] per block, in order;
    the argument of a call is the lines of the block, each between
    backquotes, joined by a plus, a quoted newline and a plus; and those
    lines joined by newlines are the block again, so a block of several
    lines reaches the runner as one command. *)
Theorem Body_String_calls (b : Body) (block : string) :
  Body_String b = run_calls b /\
  String.concat nl (Split block (byte_of 10)) = block.
Proof.
  split.
  - destruct b as [|x rest]; [reflexivity|].
    unfold Body_String. cbn [length Nat.eqb].
    now rewrite Body_String_blocks_eq.
  - unfold Split. apply (concat_Split_from block (byte_of 10) "").
Qed.

Lemma execute_range_Suites_eq (suites : list (string * string)) (sb : Builder) :
  execute_range_Suites suites sb = sb +++ execute_range_Suites suites "".
Proof.
  revert sb. induction suites as [|[title name] rest IH]; intros sb;
    cbn [execute_range_Suites].
  - now rewrite append_nil_r.
  - rewrite IH. symmetry. rewrite IH. symmetry.
    cbn [String.append]. now rewrite !append_assoc.
Qed.

Lemma len_0_iff (s : string) : (len s =? 0) = true <-> s = "".
Proof.
  destruct s; cbn [len String.length Nat.eqb]; split; congruence.
Qed.

(** X15.  The conditions of the template of [Suite.String].  A body
    renders to the empty text exactly when it has no block, so the runner
    is acquired exactly when the suite has commands to run or to clean up
    with; and [generateChildrenTesting] returns the empty text exactly when
    the suite has no children, so [RunIncludedSuites] is generated exactly
    when there are children. *)
Theorem template_conditions (s : Suite) (b : Body) :
  truth (Body_String b) = negb (length b =? 0) /\
  truth (generateChildrenTesting s) = negb (length (Children s) =? 0).
Proof.
  split.
  - destruct b as [|block rest]; [reflexivity|].
    unfold Body_String. cbn [length Nat.eqb Body_String_blocks].
    rewrite Body_String_blocks_eq, Body_String_lines_eq.
    unfold WriteString. cbn [String.append]. reflexivity.
  - unfold generateChildrenTesting.
    destruct (Children s) as [|child rest]; [reflexivity|].
    cbn [length Nat.eqb negb]. unfold execute_includedSuiteTemplate.
    rewrite execute_range_Suites_eq. reflexivity.
Qed.

(** *** Quoting for [try_run] *)

Lemma sh_unquote_quote (rest : string) :
  sh_unquote true (("'" +++ bslash +++ "''") +++ rest) =
  option_map (String "'"%char) (sh_unquote true rest).
Proof. reflexivity. Qed.

Lemma sh_unquote_plain (c : ascii) (rest : string) :
  Ascii.eqb c "'"%char = false ->
  sh_unquote true (String c rest) = option_map (String c) (sh_unquote true rest).
Proof. intros E. cbn [sh_unquote]. now rewrite E. Qed.

Lemma sh_unquote_inside (block : string) :
  sh_unquote true (ReplaceAll block "'"%char ("'" +++ bslash +++ "''") +++ "'") =
  Some block.
Proof.
  induction block as [|c block IH]; [reflexivity|].
  cbn [ReplaceAll]. destruct (Ascii.eqb c "'"%char) eqn:E.
  - apply Ascii.eqb_eq in E. subst c.
    rewrite append_assoc, sh_unquote_quote, IH. reflexivity.
  - transitivity
      (option_map (String c)
         (sh_unquote true
            (ReplaceAll block "'"%char ("'" +++ bslash +++ "''") +++ "'"))).
    + apply (sh_unquote_plain c _ E).
    + now rewrite IH.
Qed.

(** X16.  With [retry], [Body.BashString] writes each block as the one
    argument of [try_run], inside single quotes with every quote of the
    block written as quote, backslash-quote, quote; read back by the
    shell's rule for such a word, the argument is the block, byte for
    byte. *)
Theorem try_run_argument_is_block (block : string) (withExit : bool) :
  Body_BashString [block] withExit true =
    tab +++ "try_run " +++ try_run_argument block +++ nl +++
    (if withExit then exit_guard else "") /\
  sh_unquote false (try_run_argument block) = Some block.
Proof.
  split.
  - rewrite Body_BashString_cons. cbn [bash_lines]. unfold bash_line.
    rewrite append_nil_r. unfold try_run_argument. reflexivity.
  - unfold try_run_argument. cbn [String.append sh_unquote Ascii.eqb Bool.eqb].
    apply sh_unquote_inside.
Qed.

(** *** The earlier [Body.BashString] *)

Lemma join_lines_old_concat (line : string) (rest : list string) :
  line +++ join_lines_old rest "" =
  String.concat (" &&" +++ nl +++ tab) (line :: rest).
Proof.
  revert line. induction rest as [|line2 rest IH]; intros line.
  - cbn [join_lines_old String.concat]. apply append_nil_r.
  - rewrite concat_cons by discriminate. rewrite <- IH.
    cbn [join_lines_old]. rewrite join_lines_old_eq. unfold WriteString.
    cbn [String.append]. now rewrite !append_assoc.
Qed.

Lemma Body_BashString_blocks_old_blocks (withExit : bool) (b : Body) :
  Body_BashString_blocks_old withExit b "" = old_blocks withExit b.
Proof.
  induction b as [|block rest IH]; [reflexivity|].
  cbn [Body_BashString_blocks_old old_blocks].
  rewrite Body_BashString_blocks_old_eq, IH. f_equal.
  unfold old_block.
  pose proof (Split_from_not_nil block (byte_of 10) "") as Hn.
  unfold Split. destruct (Split_from block (byte_of 10) "") as [|line lines];
    [congruence|].
  cbn [hd tl]. rewrite <- join_lines_old_concat.
  rewrite (join_lines_old_eq lines (WriteString _ _)).
  unfold WriteString. cbn [String.append].
  destruct withExit; now rewrite !append_assoc, ?append_nil_r.
Qed.

Lemma Body_BashString_old_chains_aux (b : Body) (withExit : bool) :
  Body_BashString_old b withExit =
    match b with
    | [] => tab +++ ":" +++ nl
    | _ :: _ => old_blocks withExit b
    end.
Proof.
  destruct b as [|block rest]; [reflexivity|].
  unfold Body_BashString_old. cbn [length Nat.eqb].
  apply Body_BashString_blocks_old_blocks.
Qed.

(** X17.  The earlier [Body.BashString] renders an empty body as the
    no-op [:], and otherwise each block as one chain: its lines joined by
    [&&], and, with [withExit], a single [|| exit] after the last line. *)
Theorem Body_BashString_old_chains (b : Body) (withExit : bool) :
  Body_BashString_old b withExit =
    match b with
    | [] => tab +++ ":" +++ nl
    | _ :: _ => old_blocks withExit b
    end.
Proof.
  apply Body_BashString_old_chains_aux.
Qed.

Lemma Split_one_line (s : string) (sep : ascii) (cur : string) :
  has_byte s sep = false -> Split_from s sep cur = [rev cur +++ s].
Proof.
  revert cur. induction s as [|c s IH]; intros cur H; cbn [Split_from].
  - now rewrite append_nil_r.
  - cbn [has_byte] in H. apply orb_false_iff in H as [Hc Hs].
    rewrite Hc, (IH _ Hs). unfold rev. cbn [rev_append].
    rewrite (rev_append_app cur (String c "")), append_assoc. reflexivity.
Qed.

(** X18.  For blocks of one line, the two revisions render a body
    without exit alike: the cleanup functions of a script come out the
    same from both. *)
Theorem one_line_blocks_render_alike (b : Body) :
  (forall block, In block b -> has_byte block (byte_of 10) = false) ->
  Body_BashString_old b false = Body_BashString b false false.
Proof.
  intros H. rewrite Body_BashString_old_chains_aux, Body_BashString_plain.
  destruct b as [|x rest]; [reflexivity|]. cbn [length Nat.eqb].
  induction (x :: rest) as [|block l IH]; [reflexivity|].
  cbn [old_blocks plain_lines]. rewrite IH by (intros; apply H; now right).
  unfold old_block, Split.
  rewrite (Split_one_line block (byte_of 10) "") by (apply H; now left).
  cbn [String.concat rev rev_append String.append].
  now rewrite !append_assoc.
Qed.

(** *** [generateChildrenTesting] *)

Lemma fold_left_snoc_map {A B : Type} (f : A -> B) (l : list A) (acc : list B) :
  fold_left (fun acc x => acc ++ [f x]) l acc = acc ++ map f l.
Proof.
  revert acc. induction l as [|x l IH]; intros acc; cbn [fold_left map].
  - now rewrite app_nil_r.
  - rewrite IH, <- app_assoc. reflexivity.
Qed.

Lemma execute_range_Suites_children (children : list Suite) (sb : Builder) :
  execute_range_Suites
    (map (fun child =>
            (cases_Title (nameRegex_ReplaceAllString (snd (path_Split (Dir child))) "_"),
             Name child)) children) sb =
  sb +++ child_entries children.
Proof.
  revert sb. induction children as [|child rest IH]; intros sb;
    cbn [map execute_range_Suites child_entries].
  - now rewrite append_nil_r.
  - rewrite IH. unfold child_entry. now rewrite !append_assoc.
Qed.

(** X21.  [generateChildrenTesting] writes one [s.Run] entry per child, in
    the order of [Children]: the entry is titled by the last element of
    the child's directory, cleaned and title-cased, and runs the field
    named after the child.  Parents, tests and bodies of the suite play no
    part. *)
Theorem generateChildrenTesting_entries (s : Suite) :
  generateChildrenTesting s =
    match Children s with
    | [] => ""
    | _ :: _ => nl +++ tab +++ child_entries (Children s) +++ nl
    end.
Proof.
  unfold generateChildrenTesting.
  destruct (Children s) as [|child rest] eqn:E; [reflexivity|].
  cbn [length Nat.eqb]. unfold execute_includedSuiteTemplate.
  rewrite (fold_left_snoc_map
             (fun child =>
                (cases_Title
                   (nameRegex_ReplaceAllString (snd (path_Split (Dir child))) "_"),
                 Name child))).
  cbn [app]. rewrite execute_range_Suites_children.
  now rewrite !append_assoc.
Qed.
End Suites.

Arguments mkSuite {Test Dependency Dependencies}.
Arguments Dir {Test Dependency Dependencies}.
Arguments Location {Test Dependency Dependencies}.
Arguments Cleanup {Test Dependency Dependencies}.
Arguments Run {Test Dependency Dependencies}.
Arguments Tests {Test Dependency Dependencies}.
Arguments Parents {Test Dependency Dependencies}.
Arguments setup_marker filepath_Dir {Test Dependency Dependencies}.
Arguments cleanup_marker filepath_Dir {Test Dependency Dependencies}.
Arguments cd_command filepath_Abs {Test Dependency Dependencies}.
Arguments getDependenciesSetup filepath_Abs filepath_Dir {Test Dependency Dependencies}.
Arguments getDependenciesCleanup filepath_Abs filepath_Dir {Test Dependency Dependencies}.
Arguments composedSetup filepath_Abs filepath_Dir {Test Dependency Dependencies}.
Arguments composedCleanup filepath_Abs filepath_Dir {Test Dependency Dependencies}.
Arguments bashData filepath_Abs filepath_Dir {Test Dependency Dependencies}.
Arguments Suite_BashString filepath_Abs filepath_Dir {Test} Test_BashString
  {Dependency Dependencies}.

(** *** A sample tree

    Paths are absolute and clean, so [filepath.Abs] returns its argument
    and [filepath.Dir] drops the last element.  A test is the text it
    renders to. *)

Definition sample_Abs (p : string) : string := p.

Definition sample_DirOf (p : string) : string :=
  let d := fst (path_Split p) in
  if len d <=? 1 then (if len d =? 0 then "." else d)
  else slice_to d (len d - 1).

Definition sample_Test_BashString (t : string) (retry : bool) : string := t.

Definition sample_suite (dir : string) (run cleanup : Body)
  (parents : list (Suite string unit unit)) : Suite string unit unit :=
  mkSuite dir (dir +++ "/README.md") tt cleanup run [] [] parents tt tt.

Definition suite_A : Suite string unit unit :=
  sample_suite "/w/a" ["kubectl create ns a"] ["kubectl delete ns a"] [].

Definition suite_B : Suite string unit unit :=
  sample_suite "/w/a/b" ["kubectl apply -f b.yaml"] ["kubectl delete -f b.yaml"]
    [suite_A].

Definition suite_S : Suite string unit unit :=
  sample_suite "/w/a/b/s" ["./run.sh"] ["rm -rf out"] [suite_B].

Lemma composedSetup_sample :
  composedSetup sample_Abs sample_DirOf suite_S =
  ["echo 'setup suite /w/a'"; "cd /w/a"; "kubectl create ns a";
   "echo 'setup suite /w/a/b'"; "cd /w/a/b"; "kubectl apply -f b.yaml";
   "echo 'setup suite /w/a/b/s'"; "cd /w/a/b/s"; "./run.sh"].
Proof. reflexivity. Qed.


(** C3, as the claim states it, fails: after the marker comes the
    directory change, not the first command of [Cleanup]. *)
Lemma cleanup_has_cd_after_marker :
  composedCleanup sample_Abs sample_DirOf suite_S =
    ["echo 'cleanup suite /w/a/b/s'"; "cd /w/a/b/s"; "rm -rf out";
     "echo 'cleanup suite /w/a/b'"; "cd /w/a/b"; "kubectl delete -f b.yaml";
     "echo 'setup suite /w/a'"; "cd /w/a"; "kubectl create ns a"] /\
  composedCleanup sample_Abs sample_DirOf suite_S <>
    [cleanup_marker sample_DirOf suite_S] ++ Cleanup suite_S ++
    flat_map (getDependenciesCleanup sample_Abs sample_DirOf) (Parents suite_S).
Proof.
  split; [reflexivity|]. intros H. vm_compute in H. discriminate H.
Qed.

(** C4, as the claim states it, fails: the second script is longer than
    the first, and the caller finds the suite's [Run] and [Cleanup]
    changed. *)
Lemma BashString_second_call_differs :
  let first := Suite_BashString sample_Abs sample_DirOf sample_Test_BashString suite_S false in
  let second :=
    Suite_BashString sample_Abs sample_DirOf sample_Test_BashString (snd first) false in
  fst second <> fst first /\
  Run (snd first) = ["echo 'setup suite /w/a/b/s'"; "cd /w/a/b/s"; "./run.sh"] /\
  Run suite_S = ["./run.sh"] /\
  Cleanup (snd first) = ["echo 'cleanup suite /w/a/b/s'"; "cd /w/a/b/s"; "rm -rf out"] /\
  Cleanup suite_S = ["rm -rf out"].
Proof.
  cbv zeta. repeat split.
  intros H. apply (f_equal len) in H. apply Nat.eqb_eq in H.
  vm_compute in H. discriminate H.
Qed.


(** *** The extra properties on the sample tree *)

Lemma ancestor_setup_precedes_witness :
  ancestor string unit unit suite_A suite_S /\
  exists pre post,
    getDependenciesSetup sample_Abs sample_DirOf suite_S =
    pre ++ getDependenciesSetup sample_Abs sample_DirOf suite_A ++ post ++
    [setup_marker sample_DirOf suite_S; cd_command sample_Abs suite_S] ++
    Run suite_S.
Proof.
  assert (H : ancestor string unit unit suite_A suite_S).
  { apply (ancestor_step string unit unit suite_A suite_B suite_S).
    - left. reflexivity.
    - apply ancestor_parent. left. reflexivity. }
  split; [exact H|].
  exact (ancestor_setup_precedes sample_Abs sample_DirOf string unit unit
           suite_A suite_S H).
Defined.

Lemma cleanup_chain_witness :
  Parents suite_S = [suite_B] /\
  Parents suite_B = [suite_A] /\
  composedCleanup sample_Abs sample_DirOf suite_S =
    [cleanup_marker sample_DirOf suite_S; cd_command sample_Abs suite_S] ++
    Cleanup suite_S ++
    [cleanup_marker sample_DirOf suite_B; cd_command sample_Abs suite_B] ++
    Cleanup suite_B ++
    getDependenciesSetup sample_Abs sample_DirOf suite_A.
Proof.
  split; [reflexivity|]. split; [reflexivity|].
  apply (cleanup_chain sample_Abs sample_DirOf string unit unit
           suite_S suite_A suite_B); reflexivity.
Defined.

(** A suite named after its directory, with tests that render to their
    own text and no dependencies. *)
Definition sample_Name (s : Suite string unit unit) : string :=
  snd (path_Split (Dir s)).

Definition sample_String (s : Suite string unit unit) :
  string * Suite string unit unit :=
  Suite_String string (fun t => t) "" unit unit
    (fun _ => "") (fun _ => "") (fun _ => "")
    (fun s _ => s) (fun s _ => s) (fun s => s) sample_Name s.

Lemma String_is_idempotent_witness :
  (forall (s0 : Suite string unit unit) (tests : list string),
     sample_Name (set_Tests string unit unit s0 tests) = sample_Name s0) /\
  Tests suite_S = [] /\
  sample_String (snd (sample_String suite_S)) = sample_String suite_S.
Proof.
  assert (H : forall (s0 : Suite string unit unit) (tests : list string),
            sample_Name (set_Tests string unit unit s0 tests) = sample_Name s0)
    by reflexivity.
  split; [exact H|]. split; [reflexivity|].
  exact (String_is_idempotent string (fun t => t) "" unit unit
           (fun _ => "") (fun _ => "") (fun _ => "")
           (fun s _ => s) (fun s _ => s) (fun s => s) sample_Name suite_S H).
Defined.

Lemma one_line_blocks_render_alike_witness :
  (forall block, In block (Cleanup suite_S) ->
     has_byte block (byte_of 10) = false) /\
  Body_BashString_old (Cleanup suite_S) false =
  Body_BashString (Cleanup suite_S) false false.
Proof.
  assert (H : forall block, In block (Cleanup suite_S) ->
            has_byte block (byte_of 10) = false).
  { intros block [E | []]. subst block. reflexivity. }
  split; [exact H|].
  exact (one_line_blocks_render_alike (Cleanup suite_S) H).
Defined.
End Generator.
